(** * The wallet Node: a multiplexed line-delimited JSON RPC client

    A shallow embedding of [wallet.Node] (NewNode, Connect, listen, request)
    together with the properties its specification states about it.

    Conventions of the embedding:
    - [[]byte] and Go strings are Rocq strings; [uint32] and [int] are [Z],
      with the wrap-around of [atomic.Uint32.Inc] written out;
    - a Go [error] value that may be [nil] is an [option error];
    - [map[uint32]chan response] and [map[string][]chan response] are stdpp
      finite maps whose values are references into a store of channels, so
      that two map entries naming the same channel alias each other;
    - goroutines are threads of a small-step machine; everything the
      environment decides (the outcome of [Send], the case a [select]
      takes, the frames the transport delivers, the random draws of
      [rand.Shuffle], the outcome of dialling an address) is an explicit
      input.

    The blob stores of package store, [HTTPStore] and [DiskStore], follow
    the Node, with their own conventions. *)

From Stdlib Require Import ZArith String Ascii List Lia Bool Permutation DecimalString.
From stdpp Require Import base option list gmap strings.

Local Open Scope Z_scope.
Local Open Scope string_scope.

(** ** Byte strings *)

Abbreviation bytes := string (only parsing).

(** ** Errors *)

Inductive error : Type :=
| Base (msg : string)                  (* errors.Base(msg): a sentinel of the package *)
| OpError (inner : string)             (* a net.OpError; [inner] is e.Err.Error() *)
| Errorf (code : Z) (message : string) (* errors.Err("%d: %s", code, message) *)
| Foreign (msg : string).              (* any other error: encoding/json, io, ... *)

#[global] Instance error_eq_dec : EqDecision error.
Proof. solve_decision. Defined.

Definition ErrNotImplemented : error := Base "not implemented".
Definition ErrNodeConnected : error := Base "node already connected".
Definition ErrConnectFailed : error := Base "failed to connect".
Definition ErrTimeout : error := Base "timeout".

(** [errors.Err] attaches a stack trace; the error it carries is unchanged. *)
Definition Err (e : error) : error := e.

(** [errors.Is(err, target)] for a sentinel target. *)
Definition Is (e target : error) : bool := bool_decide (e = target).

(** ** Responses and channels *)

Record response : Type := { data : bytes; err : option error }.

#[global] Instance response_eq_dec : EqDecision response.
Proof. solve_decision. Defined.

(** [response{}] *)
Definition response_zero : response := {| data := ""; err := None |}.

(** A [chan response]: its capacity and the values buffered in it.  A
    receiver parked on the channel counts as one free slot. *)
Record chan : Type := { cap : nat; buf : list response }.

(** Channels are reference values: the maps of the Node hold references into
    a store. *)
Abbreviation ref := nat (only parsing).
Abbreviation store := (gmap nat chan) (only parsing).

(** make(chan response, n) *)
Definition make_chan (n : nat) : chan := {| cap := n; buf := [] |}.

Definition has_room (ch : chan) : bool := bool_decide (length (buf ch) < cap ch)%nat.

Definition enqueue (ch : chan) (r : response) : chan :=
  {| cap := cap ch; buf := buf ch ++ [r] |}.

(** [c <- r]: [None] when the send has to block (full channel; a send on a
    nil channel blocks forever). *)
Definition send (h : store) (c : ref) (r : response) : option store :=
  match h !! c with
  | Some ch => if has_room ch then Some (<[c := enqueue ch r]> h) else None
  | None => None
  end.

(** [select { case c <- r: default: }] *)
Definition try_send (h : store) (c : ref) (r : response) : store :=
  match send h c r with
  | Some h' => h'
  | None => h
  end.

(** What a non-blocking send leaves of the channel it is tried on. *)
Definition offer (r : response) (ch : chan) : chan :=
  if has_room ch then enqueue ch r else ch.

(** [r = <-c], when a value is buffered. *)
Definition recv (h : store) (c : ref) : option (response * store) :=
  match h !! c with
  | Some ch =>
      match buf ch with
      | r :: rest => Some (r, <[c := {| cap := cap ch; buf := rest |}]> h)
      | [] => None
      end
  | None => None
  end.

(** ** The Node *)

(** Modelled from the spec: the Transport (wallet/transport.go is not among
    the sources) owns one physical connection; the model keeps the address
    it is connected to. *)
Record TCPTransport : Type := { remote : string }.

(** [stop.Group]: whether its channel [Ch()] is closed, and how many workers
    were added to it. *)
Record Group : Type := { closed : bool; workers : nat }.

Definition uint32_modulus : Z := 2 ^ 32.

(** [time.Duration] counts nanoseconds. *)
Definition Second : Z := 1000000000.

Record Node : Type := {
  transport : option TCPTransport;
  nextID : Z;
  grp : Group;
  handlers : gmap Z nat;
  pushHandlers : gmap string (list nat);
  timeout : Z
}.

Definition NewNode : Node :=
  {| transport := None;
     nextID := 0;
     grp := {| closed := false; workers := 0 |};
     handlers := ∅;
     pushHandlers := ∅;
     timeout := 1 * Second |}.

Definition set_transport (t : option TCPTransport) (n : Node) : Node :=
  {| transport := t; nextID := nextID n; grp := grp n; handlers := handlers n;
     pushHandlers := pushHandlers n; timeout := timeout n |}.

Definition set_nextID (i : Z) (n : Node) : Node :=
  {| transport := transport n; nextID := i; grp := grp n; handlers := handlers n;
     pushHandlers := pushHandlers n; timeout := timeout n |}.

Definition set_grp (g : Group) (n : Node) : Node :=
  {| transport := transport n; nextID := nextID n; grp := g; handlers := handlers n;
     pushHandlers := pushHandlers n; timeout := timeout n |}.

Definition set_handlers (m : gmap Z nat) (n : Node) : Node :=
  {| transport := transport n; nextID := nextID n; grp := grp n; handlers := m;
     pushHandlers := pushHandlers n; timeout := timeout n |}.

Definition set_pushHandlers (m : gmap string (list nat)) (n : Node) : Node :=
  {| transport := transport n; nextID := nextID n; grp := grp n; handlers := handlers n;
     pushHandlers := m; timeout := timeout n |}.

(** n.grp.Add(1) *)
Definition grp_Add (n : Node) : Node :=
  set_grp {| closed := closed (grp n); workers := S (workers (grp n)) |} n.

(** n.grp.Stop(): closes the channel every worker selects on. *)
Definition grp_Stop (n : Node) : Node :=
  set_grp {| closed := true; workers := workers (grp n) |} n.

(** ** Connect *)

(** The function handed to [rand.Shuffle]:
    [addrs[i], addrs[j] = addrs[j], addrs[i]].  An index out of range
    panics in Go; [Shuffle] never produces one, and the model leaves the
    slice as it is there. *)
Definition swap (i j : nat) (addrs : list string) : list string :=
  match addrs !! i, addrs !! j with
  | Some a, Some b => <[i := b]> (<[j := a]> addrs)
  | _, _ => addrs
  end.

(** [rand.Shuffle(n, swap)]: for i from n-1 down to 1, swap i with a random
    j in [0, i].  [rnd i] is the number drawn at index [i]. *)
Fixpoint shuffle_from {A : Type} (rnd : nat -> nat) (swp : nat -> nat -> A -> A)
    (i : nat) (a : A) : A :=
  match i with
  | O => a
  | S i' => shuffle_from rnd swp i' (swp i (rnd i mod S i)%nat a)
  end.

Definition Shuffle {A : Type} (rnd : nat -> nat) (n : nat)
    (swp : nat -> nat -> A -> A) (a : A) : A :=
  shuffle_from rnd swp (n - 1)%nat a.

(** The error is a net.OpError whose [e.Err.Error()] is "no such host". *)
Definition is_no_such_host (e : error) : bool :=
  match e with
  | OpError inner => bool_decide (inner = "no such host")
  | _ => false
  end.

(** How the [for _, addr := range addrs] loop of Connect ends. *)
Inductive loop_exit : Type :=
| Break (t : TCPTransport)   (* err == nil *)
| Return (e : error)         (* return errors.Err(err) *)
| Exhausted.                 (* the range is over *)

(** The loop, with the addresses handed to [NewTransport], in order.
    [dial] stands for [NewTransport] (wallet/transport.go is not among the
    sources): for each address it either establishes a Transport or fails
    with an error. *)
Fixpoint try_addrs (dial : string -> TCPTransport + error) (addrs : list string)
    : list string * loop_exit :=
  match addrs with
  | [] => ([], Exhausted)
  | addr :: rest =>
      match dial addr with
      | inl t => ([addr], Break t)
      | inr e =>
          if Is e ErrTimeout then
            let '(tried, x) := try_addrs dial rest in (addr :: tried, x)
          else if is_no_such_host e then
            let '(tried, x) := try_addrs dial rest in (addr :: tried, x)
          else ([addr], Return (Err e))
      end
  end.


(** What a call of Connect leaves behind: the Node, the caller's slice, the
    addresses that were dialled, and the error returned. *)
Record connected : Type := {
  c_node : Node;
  c_addrs : list string;
  c_dialled : list string;
  c_err : option error
}.

Definition Connect (rnd : nat -> nat) (dial : string -> TCPTransport + error)
    (n : Node) (addrs : list string) : connected :=
  match transport n with
  | Some _ =>
      {| c_node := n; c_addrs := addrs; c_dialled := [];
         c_err := Some (Err ErrNodeConnected) |}
  | None =>
      let addrs := Shuffle rnd (length addrs) swap addrs in
      match try_addrs dial addrs with
      | (tried, Return e) =>
          {| c_node := n; c_addrs := addrs; c_dialled := tried; c_err := Some e |}
      | (tried, Exhausted) =>
          {| c_node := n; c_addrs := addrs; c_dialled := tried;
             c_err := Some (Err ErrConnectFailed) |}
      | (tried, Break t) =>
          (* the teardown worker, the error relay and the receive loop *)
          {| c_node := grp_Add (grp_Add (grp_Add (set_transport (Some t) n)));
             c_addrs := addrs; c_dialled := tried; c_err := None |}
      end
  end.

(** Shutdown: n.grp.StopAndWait() *)
Definition Shutdown (n : Node) : Node := grp_Stop n.

(** ** JSON *)

(** [json.Unmarshal(data, v)] for a target of type [T]: the target as the
    call leaves it, and the error returned.  A failed call may have filled
    part of the target. *)
Class Unmarshal (T : Type) : Type :=
  unmarshal : bytes -> T -> T * option error.

(** [json.Marshal(v)] *)
Class Marshal (T : Type) : Type :=
  marshal : T -> bytes + error.

#[global] Arguments unmarshal {T _} _ _ : simpl never.
#[global] Arguments marshal {T _} _ : simpl never.

(** The byte [request] appends to every frame; the constant [delimiter] is
    declared in wallet/transport.go, which is not among the sources. *)
Class Framing : Type :=
  delimiter : ascii.

(** The struct [request] serializes. *)
Record request_msg : Type := {
  req_ID : Z;                          (* ID uint32 `json:"id"` *)
  req_Method : string;                 (* Method string `json:"method"` *)
  req_Params : option (list string)    (* Params []string `json:"params"`; None is the nil slice *)
}.

(** The struct [listen] decodes a frame into ([msg]). *)
Record rpc_error : Type := {
  Code : Z;                            (* Code int `json:"code"` *)
  Message : string                     (* Message string `json:"message"` *)
}.

Record envelope : Type := {
  ID : Z;                              (* ID uint32 `json:"id"` *)
  Method : string;                     (* Method string `json:"method"` *)
  Error : rpc_error                    (* Error struct{...} `json:"error"` *)
}.

(** The alternate struct ([msg2]): the error's message is itself an error. *)
Record rpc_error2 : Type := {
  Code2 : Z;
  Message2 : rpc_error
}.

Record envelope2 : Type := {
  ID2 : Z;
  Method2 : string;
  Error2 : rpc_error2
}.

Definition rpc_error_zero : rpc_error := {| Code := 0; Message := "" |}.
Definition envelope_zero : envelope :=
  {| ID := 0; Method := ""; Error := rpc_error_zero |}.
Definition envelope2_zero : envelope2 :=
  {| ID2 := 0; Method2 := "";
     Error2 := {| Code2 := 0; Message2 := rpc_error_zero |} |}.

#[global] Instance rpc_error_eq_dec : EqDecision rpc_error.
Proof. solve_decision. Defined.
#[global] Instance envelope_eq_dec : EqDecision envelope.
Proof. solve_decision. Defined.

(** ** The state all goroutines share *)

Record World : Type := {
  node : Node;
  chans : gmap nat chan;   (* the channels that were made *)
  wire : list bytes;       (* what transport.Send accepted, oldest first *)
  logged : list error      (* what n.err logged, oldest first *)
}.

Definition set_node (n : Node) (w : World) : World :=
  {| node := n; chans := chans w; wire := wire w; logged := logged w |}.

Definition set_chans (h : gmap nat chan) (w : World) : World :=
  {| node := node w; chans := h; wire := wire w; logged := logged w |}.

Definition push_wire (b : bytes) (w : World) : World :=
  {| node := node w; chans := chans w; wire := wire w ++ [b]; logged := logged w |}.

(** n.err(err): log.Error(errors.FullTrace(err)) *)
Definition Node_err (e : error) (w : World) : World :=
  {| node := node w; chans := chans w; wire := wire w; logged := logged w ++ [e] |}.

(** A channel reference no channel of the store has. *)
Definition new_ref (h : gmap nat chan) : nat := fresh (dom h : gset nat).

(** ** request *)

(** The case a [select] of [request] takes.  [SelTimeout elapsed] is the
    timer of [time.After(n.timeout)] observed [elapsed] nanoseconds after it
    was armed. *)
Inductive select_case : Type :=
| SelStop                      (* case <-n.grp.Ch() *)
| SelResponse                  (* case r = <-c *)
| SelTimeout (elapsed : Z).    (* case <-time.After(n.timeout) *)

(** What the environment contributes to one statement of [request]: the
    result of [transport.Send] and the case the [select] is offered.  The
    calls considered are made on a connected Node, which has a transport
    to send on. *)
Record input : Type := { send_err : option error; sel : select_case }.

(** The statement a call of [request] is about to execute. *)
Inductive point : Type :=
| AtLoad                                             (* ID: n.nextID.Load() *)
| AtInc (msg : request_msg)                          (* n.nextID.Inc() *)
| AtMarshal (msg : request_msg)                      (* json.Marshal(msg); append delimiter *)
| AtRegister (msg : request_msg) (b : bytes)         (* c := make(chan response, 1); n.handlers[msg.ID] = c *)
| AtSend (msg : request_msg) (b : bytes) (c : nat)   (* n.transport.Send(bytes) *)
| AtSelect (msg : request_msg) (c : nat)             (* select { ... } *)
| AtDelete (msg : request_msg) (r : response)        (* delete(n.handlers, msg.ID); return *)
| Returned (e : option error).                       (* the call has returned e *)

Section Dispatcher.

Context {V : Type}.
Context `{!Unmarshal envelope, !Unmarshal envelope2, !Unmarshal V}.
Context `{!Marshal request_msg, !Framing}.

(** One call [n.request(method, params, &out)] in progress. *)
Record call : Type := {
  method : string;
  params : option (list string);
  out : V;
  pc : point
}.

Definition goto (p : point) (t : call) : call :=
  {| method := method t; params := params t; out := out t; pc := p |}.

Definition set_out (o : V) (t : call) : call :=
  {| method := method t; params := params t; out := o; pc := pc t |}.

Definition start (m : string) (p : option (list string)) (o : V) : call :=
  {| method := m; params := p; out := o; pc := AtLoad |}.

(** atomic.Uint32.Inc *)
Definition Inc (i : Z) : Z := (i + 1) mod uint32_modulus.

(** The request object a call builds in world [w]. *)
Definition msg_of (w : World) (m : string) (p : option (list string)) : request_msg :=
  {| req_ID := nextID (node w); req_Method := m; req_Params := p |}.

(** The world once a call has taken its id, made its channel and registered
    it, before [transport.Send]. *)
Definition registered (w : World) : World :=
  let c := new_ref (chans w) in
  {| node := set_handlers (<[nextID (node w) := c]> (handlers (node w)))
               (set_nextID (Inc (nextID (node w))) (node w));
     chans := <[c := make_chan 1]> (chans w);
     wire := wire w;
     logged := logged w |}.

(** The tail of [request] once [r] is known:
    [if r.err != nil { return errors.Err(r.err) }; return errors.Err(json.Unmarshal(r.data, v))] *)
Definition finish (r : response) (t : call) : call :=
  match err r with
  | Some e => goto (Returned (Some (Err e))) t
  | None =>
      let '(o, e) := unmarshal (data r) (out t) in
      goto (Returned e) (set_out o t)
  end.

(** One statement of [request]. *)
Definition request_step (i : input) (w : World) (t : call) : World * call :=
  match pc t with
  | AtLoad =>
      let msg := {| req_ID := nextID (node w); req_Method := method t;
                    req_Params := params t |} in
      (w, goto (AtInc msg) t)
  | AtInc msg =>
      (set_node (set_nextID (Inc (nextID (node w))) (node w)) w, goto (AtMarshal msg) t)
  | AtMarshal msg =>
      match marshal msg with
      | inr e => (w, goto (Returned (Some (Err e))) t)
      | inl b => (w, goto (AtRegister msg (b ++ String delimiter "")) t)
      end
  | AtRegister msg b =>
      let c := new_ref (chans w) in
      let w := set_chans (<[c := make_chan 1]> (chans w)) w in
      (set_node (set_handlers (<[req_ID msg := c]> (handlers (node w))) (node w)) w,
       goto (AtSend msg b c) t)
  | AtSend msg b c =>
      match send_err i with
      | Some e => (w, goto (Returned (Some (Err e))) t)
      | None => (push_wire b w, goto (AtSelect msg c) t)
      end
  | AtSelect msg c =>
      match sel i with
      | SelStop =>
          if closed (grp (node w)) then (w, goto (Returned None) t) else (w, t)
      | SelResponse =>
          match recv (chans w) c with
          | Some (r, h) => (set_chans h w, goto (AtDelete msg r) t)
          | None => (w, t)
          end
      | SelTimeout elapsed =>
          if bool_decide (timeout (node w) <= elapsed)
          then (w, goto (AtDelete msg {| data := ""; err := Some (Err ErrTimeout) |}) t)
          else (w, t)
      end
  | AtDelete msg r =>
      (set_node (set_handlers (delete (req_ID msg) (handlers (node w))) (node w)) w,
       finish r t)
  | Returned _ => (w, t)
  end.

(** Several statements in a row, with nothing else running in between. *)
Fixpoint request_steps (k : nat) (i : input) (w : World) (t : call) : World * call :=
  match k with
  | O => (w, t)
  | S k' => let '(w', t') := request_step i w t in request_steps k' i w' t'
  end.

(** [request] from the call up to and including [transport.Send]. *)
Definition issue (send_result : option error) (w : World) (t : call) : World * call :=
  request_steps 5 {| send_err := send_result; sel := SelStop |} w t.

(** [request] from its [select] to its return. *)
Definition resolve (s : select_case) (w : World) (t : call) : World * call :=
  request_steps 2 {| send_err := None; sel := s |} w t.

(** The whole of [request], for a call that is alone on the Node until it
    waits: [meanwhile] is what the other goroutines do to the world between
    its Send and the moment its select takes case [s]. *)
Definition request (send_result : option error) (meanwhile : World -> World)
    (s : select_case) (m : string) (p : option (list string)) (o : V) (w : World)
    : World * call :=
  let '(w1, t1) := issue send_result w (start m p o) in
  resolve s (meanwhile w1) t1.

(** Calls of [request] made one after the other, each up to its select,
    every Send accepted. *)
Fixpoint issue_all (cs : list (string * option (list string) * V)) (w : World)
    : World * list call :=
  match cs with
  | [] => (w, [])
  | (m, p, o) :: rest =>
      let '(w1, t) := issue None w (start m p o) in
      let '(w2, ts) := issue_all rest w1 in
      (w2, t :: ts)
  end.

(** ** listen *)

(** The two decodes of a frame and the normalization of the second shape:
    the envelope [msg] and the [err] the classification sees. *)
Definition decode (b : bytes) : envelope * option error :=
  let '(msg, e) := unmarshal b envelope_zero in
  match e with
  | None => (msg, None)
  | Some e1 =>
      let '(msg2, e2) := unmarshal b envelope2_zero in
      match e2 with
      | None =>
          ({| ID := ID2 msg2; Method := Method2 msg2;
              Error := Message2 (Error2 msg2) |}, None)
      | Some _ => (msg, Some e1)
      end
  end.

(** The response [r] built for a frame. *)
Definition classify (b : bytes) (msg : envelope) (e : option error) : response :=
  match e with
  | Some e1 => {| data := ""; err := Some (Err e1) |}
  | None =>
      if bool_decide (0 < String.length (Message (Error msg)))%nat
      then {| data := "";
              err := Some (Errorf (Code (Error msg)) (Message (Error msg))) |}
      else {| data := b; err := None |}
  end.


(** [for _, handler := range handlers { select { case handler <- r: default: } }] *)
Definition broadcast (r : response) (subs : list nat) (h : gmap nat chan)
    : gmap nat chan :=
  foldl (fun h c => try_send h c r) h subs.

(** n.pushHandlers[method]: the nil slice when the key is absent. *)
Definition subscribers (n : Node) (m : string) : list nat :=
  default [] (pushHandlers n !! m).

(** Where the receive loop stands. *)
Inductive listener : Type :=
| Receiving                            (* at the select on transport.Responses() *)
| Delivering (c : nat) (r : response)  (* blocked in c <- r *)
| Exited.

(** [c, ok := n.handlers[msg.ID]; if ok { c <- r }] *)
Definition deliver (msg : envelope) (r : response) (w : World) : World * listener :=
  match handlers (node w) !! ID msg with
  | Some c =>
      match send (chans w) c r with
      | Some h => (set_chans h w, Receiving)
      | None => (w, Delivering c r)
      end
  | None => (w, Receiving)
  end.

(** The body of the receive loop for one frame. *)
Definition handle (b : bytes) (w : World) : World * listener :=
  let '(msg, e) := decode b in
  let r := classify b msg e in
  let w := match e with
           | Some e1 => Node_err (Err e1) w
           | None => w
           end in
  let w := if bool_decide (0 < String.length (Method msg))%nat
           then set_chans (broadcast r (subscribers (node w) (Method msg)) (chans w)) w
           else w in
  deliver msg r w.

(** One turn of the receive loop; [frame] is what transport.Responses()
    has to offer. *)
Definition listen_step (frame : option bytes) (w : World) (l : listener)
    : World * listener :=
  match l with
  | Exited => (w, Exited)
  | Delivering c r =>
      match send (chans w) c r with
      | Some h => (set_chans h w, Receiving)
      | None => (w, l)
      end
  | Receiving =>
      if closed (grp (node w)) then (w, Exited)
      else match frame with
           | Some b => handle b w
           | None => (w, Receiving)
           end
  end.


(** ** Goroutines running together *)

Record System : Type := {
  world : World;
  calls : list call;       (* the calls of request, in the order they started *)
  recv_loop : listener
}.

(** What happens next.  A statement of [request] is one step; the body of
    the receive loop for one frame, up to its send to the pending request,
    is one step. *)
Inductive action : Type :=
| Call (m : string) (p : option (list string)) (o : V) (* a goroutine enters request *)
| Step (k : nat) (i : input)                           (* call k executes one statement *)
| Frame (b : bytes)                                    (* the receive loop, at its select, gets a frame *)
| Poll                                                 (* the receive loop runs without a frame *)
| Stop.                                                (* Shutdown *)

Definition exec (a : action) (s : System) : System :=
  match a with
  | Call m p o =>
      {| world := world s; calls := calls s ++ [start m p o]; recv_loop := recv_loop s |}
  | Step k i =>
      match calls s !! k with
      | Some t =>
          let '(w, t') := request_step i (world s) t in
          {| world := w; calls := <[k := t']> (calls s); recv_loop := recv_loop s |}
      | None => s
      end
  | Frame b =>
      match recv_loop s with
      | Receiving =>
          let '(w, l) := listen_step (Some b) (world s) Receiving in
          {| world := w; calls := calls s; recv_loop := l |}
      | _ => s
      end
  | Poll =>
      let '(w, l) := listen_step None (world s) (recv_loop s) in
      {| world := w; calls := calls s; recv_loop := l |}
  | Stop =>
      {| world := set_node (Shutdown (node (world s))) (world s);
         calls := calls s; recv_loop := recv_loop s |}
  end.

Definition run (acts : list action) (s : System) : System :=
  foldl (fun s a => exec a s) s acts.

(** The id call [k] works with, once it has loaded one. *)
Definition id_of (t : call) : option Z :=
  match pc t with
  | AtLoad | Returned _ => None
  | AtInc msg | AtMarshal msg | AtRegister msg _ | AtSend msg _ _
  | AtSelect msg _ | AtDelete msg _ => Some (req_ID msg)
  end.


(** A world between requests: the counter is a uint32, every pending
    request has a single-slot channel of its own with nothing in it, and
    the push subscribers are channels that exist and belong to no pending
    request. *)
Record well_formed (w : World) : Prop := {
  wf_nextID : 0 <= nextID (node w) < uint32_modulus;
  wf_pending : forall i c, handlers (node w) !! i = Some c ->
                 chans w !! c = Some (make_chan 1);
  wf_own : forall i j c, handlers (node w) !! i = Some c ->
             handlers (node w) !! j = Some c -> i = j;
  wf_subscribers : forall m subs c, pushHandlers (node w) !! m = Some subs ->
                     c ∈ subs ->
                     is_Some (chans w !! c) /\
                     forall i, handlers (node w) !! i <> Some c
}.

(** The subscribers a frame with envelope [msg] is offered to. *)
Definition audience (n : Node) (msg : envelope) : list nat :=
  if bool_decide (0 < String.length (Method msg))%nat
  then subscribers n (Method msg) else [].

(** The world after the log entry [listen] makes for a frame. *)
Definition noted (e : option error) (w : World) : World :=
  match e with
  | Some e1 => Node_err (Err e1) w
  | None => w
  end.

(** Whether a call has executed its [n.nextID.Inc()]. *)
Definition incremented (t : call) : nat :=
  match pc t with
  | AtLoad | AtInc _ => 0
  | _ => 1
  end.

Definition increments (ts : list call) : nat := sum_list (incremented <$> ts).

(** The actions that are turns of the receive loop or the shutdown, not
    statements of a call of [request]. *)
Definition loop_turn (a : action) : Prop :=
  match a with
  | Frame _ | Poll | Stop => True
  | Call _ _ _ | Step _ _ => False
  end.

End Dispatcher.

(** ** handleErrors *)

(** The case the [select] of the error relay takes. *)
Inductive relay_case : Type :=
| RelayStop                  (* case <-n.grp.Ch() *)
| RelayError (e : error).    (* case err := <-n.transport.Errors() *)

(** One turn of the loop of [handleErrors]: [None] when it returns.  The
    stop case can only be taken once the group is stopped; offered before,
    the relay stays in its select. *)
Definition handleErrors_step (c : relay_case) (w : World) : option World :=
  match c with
  | RelayStop => if closed (grp (node w)) then None else Some w
  | RelayError e => Some (Node_err (Err e) w)
  end.

(** The loop over the cases its select takes in turn: the world it leaves
    and whether it has returned. *)
Fixpoint handleErrors (cs : list relay_case) (w : World) : World * bool :=
  match cs with
  | [] => (w, false)
  | c :: rest =>
      match handleErrors_step c w with
      | None => (w, true)
      | Some w' => handleErrors rest w'
      end
  end.

(** The errors among the cases. *)
Definition relayed (cs : list relay_case) : list error :=
  omap (fun c => match c with RelayError e => Some e | RelayStop => None end) cs.

(** ** A model of encoding/json for the structs of this package

    encoding/json is a library, not part of the package.  The general
    results below hold for any decoder; this module is the decoder the
    concrete runs use.  It covers JSON texts whose strings are ASCII or raw
    UTF-8 (a [\u] escape is decoded when it names a code point below 128 and
    is rejected otherwise), field names are matched exactly or up to ASCII
    case, and error values carry a fixed text. *)

Module GoJSON.

Local Open Scope list_scope.

#[local] Unset Elimination Schemes.
Inductive json : Type :=
| JNull
| JBool (b : bool)
| JNumber (lit : string)     (* the literal, as encoding/json keeps it *)
| JString (s : string)
| JArray (xs : list json)
| JObject (fields : list (string * json)).
#[local] Set Elimination Schemes.

Definition SyntaxError : error := Foreign "json: invalid character".
Definition UnmarshalTypeError : error := Foreign "json: cannot unmarshal value".

Definition quote : ascii := "034".
Definition backslash : ascii := "092".

Definition is_ws (c : ascii) : bool :=
  (c =? " ")%char || (c =? "009")%char || (c =? "010")%char || (c =? "013")%char.

Definition is_digit (c : ascii) : bool :=
  (48 <=? nat_of_ascii c)%nat && (nat_of_ascii c <=? 57)%nat.

Fixpoint skip_ws (s : list ascii) : list ascii :=
  match s with
  | c :: r => if is_ws c then skip_ws r else s
  | [] => []
  end.

Fixpoint digits (s : list ascii) : list ascii * list ascii :=
  match s with
  | c :: r => if is_digit c then let '(d, t) := digits r in (c :: d, t) else ([], s)
  | [] => ([], [])
  end.

(** [p] followed by at least one digit. *)
Definition digits1 (s : list ascii) : option (list ascii * list ascii) :=
  match digits s with
  | ([], _) => None
  | (d, t) => Some (d, t)
  end.

(** number = [ minus ] int [ frac ] [ exp ] *)
Definition number (s : list ascii) : option (list ascii * list ascii) :=
  let '(sign, s) := match s with
                    | c :: r => if (c =? "-")%char then ([c], r) else ([], s)
                    | [] => ([], s)
                    end in
  match s with
  | [] => None
  | c :: r =>
      let int_part :=
        if (c =? "0")%char then Some ([c], r)
        else if is_digit c then let '(d, t) := digits r in Some (c :: d, t)
        else None in
      match int_part with
      | None => None
      | Some (i, s) =>
          let frac :=
            match s with
            | c :: r =>
                if (c =? ".")%char then
                  match digits1 r with
                  | Some (d, t) => Some (c :: d, t)
                  | None => None
                  end
                else Some ([], s)
            | [] => Some ([], s)
            end in
          match frac with
          | None => None
          | Some (f, s) =>
              match s with
              | c :: r =>
                  if (c =? "e")%char || (c =? "E")%char then
                    let '(sg, r) := match r with
                                    | c' :: r' =>
                                        if (c' =? "+")%char || (c' =? "-")%char
                                        then ([c'], r') else ([], r)
                                    | [] => ([], r)
                                    end in
                    match digits1 r with
                    | Some (d, t) => Some (sign ++ i ++ f ++ c :: sg ++ d, t)
                    | None => None
                    end
                  else Some (sign ++ i ++ f, s)
              | [] => Some (sign ++ i ++ f, s)
              end
          end
      end
  end.

Definition hex_digit (c : ascii) : option nat :=
  let n := nat_of_ascii c in
  if (48 <=? n)%nat && (n <=? 57)%nat then Some (n - 48)%nat
  else if (97 <=? n)%nat && (n <=? 102)%nat then Some (n - 87)%nat
  else if (65 <=? n)%nat && (n <=? 70)%nat then Some (n - 55)%nat
  else None.

Definition simple_escape (c : ascii) : option ascii :=
  if (c =? quote)%char then Some quote
  else if (c =? backslash)%char then Some backslash
  else if (c =? "/")%char then Some "/"%char
  else if (c =? "b")%char then Some "008"%char
  else if (c =? "f")%char then Some "012"%char
  else if (c =? "n")%char then Some "010"%char
  else if (c =? "r")%char then Some "013"%char
  else if (c =? "t")%char then Some "009"%char
  else None.

(** The characters of a string, after its opening quote. *)
Fixpoint chars (s : list ascii) : option (string * list ascii) :=
  match s with
  | [] => None
  | c :: r =>
      if (c =? quote)%char then Some ("", r)
      else if (c =? backslash)%char then
        match r with
        | e :: r1 =>
            if (e =? "u")%char then
              match r1 with
              | h1 :: h2 :: h3 :: h4 :: r2 =>
                  match hex_digit h1, hex_digit h2, hex_digit h3, hex_digit h4 with
                  | Some 0%nat, Some 0%nat, Some a, Some b =>
                      if (a <? 8)%nat then
                        match chars r2 with
                        | Some (t, r3) => Some (String (ascii_of_nat (16 * a + b)) t, r3)
                        | None => None
                        end
                      else None
                  | _, _, _, _ => None
                  end
              | _ => None
              end
            else
              match simple_escape e with
              | Some x =>
                  match chars r1 with
                  | Some (t, r2) => Some (String x t, r2)
                  | None => None
                  end
              | None => None
              end
        | [] => None
        end
      else if (nat_of_ascii c <? 32)%nat then None
      else
        match chars r with
        | Some (t, r1) => Some (String c t, r1)
        | None => None
        end
  end.

Fixpoint strip (p s : list ascii) : option (list ascii) :=
  match p, s with
  | [], _ => Some s
  | a :: p', b :: s' => if (a =? b)%char then strip p' s' else None
  | _ :: _, [] => None
  end.

Definition literal (word : string) (j : json) (s : list ascii)
    : option (json * list ascii) :=
  match strip (list_ascii_of_string word) s with
  | Some r => Some (j, r)
  | None => None
  end.

(** value, members of an object and elements of an array.  A level of
    nesting costs two units of fuel and at least two characters, a further
    member or element one unit and at least two characters, so the length
    of the text is fuel enough. *)
Fixpoint value (fuel : nat) (s : list ascii) : option (json * list ascii) :=
  match fuel with
  | O => None
  | S fuel =>
      match skip_ws s with
      | [] => None
      | c :: r =>
          if (c =? "{")%char then
            match skip_ws r with
            | [] => None
            | c' :: r' =>
                if (c' =? "}")%char then Some (JObject [], r')
                else match members fuel (c' :: r') with
                     | Some (fs, t) => Some (JObject fs, t)
                     | None => None
                     end
            end
          else if (c =? "[")%char then
            match skip_ws r with
            | [] => None
            | c' :: r' =>
                if (c' =? "]")%char then Some (JArray [], r')
                else match elements fuel (c' :: r') with
                     | Some (xs, t) => Some (JArray xs, t)
                     | None => None
                     end
            end
          else if (c =? quote)%char then
            match chars r with
            | Some (x, t) => Some (JString x, t)
            | None => None
            end
          else if (c =? "t")%char then literal "true" (JBool true) (c :: r)
          else if (c =? "f")%char then literal "false" (JBool false) (c :: r)
          else if (c =? "n")%char then literal "null" JNull (c :: r)
          else match number (c :: r) with
               | Some (lit, t) => Some (JNumber (string_of_list_ascii lit), t)
               | None => None
               end
      end
  end
with members (fuel : nat) (s : list ascii) : option (list (string * json) * list ascii) :=
  match fuel with
  | O => None
  | S fuel =>
      match skip_ws s with
      | [] => None
      | c :: r =>
          if (c =? quote)%char then
            match chars r with
            | None => None
            | Some (k, r1) =>
                match skip_ws r1 with
                | [] => None
                | c1 :: r2 =>
                    if (c1 =? ":")%char then
                      match value fuel r2 with
                      | None => None
                      | Some (x, r3) =>
                          match skip_ws r3 with
                          | [] => None
                          | c2 :: r4 =>
                              if (c2 =? "}")%char then Some ([(k, x)], r4)
                              else if (c2 =? ",")%char then
                                match members fuel r4 with
                                | Some (fs, t) => Some ((k, x) :: fs, t)
                                | None => None
                                end
                              else None
                          end
                      end
                    else None
                end
            end
          else None
      end
  end
with elements (fuel : nat) (s : list ascii) : option (list json * list ascii) :=
  match fuel with
  | O => None
  | S fuel =>
      match value fuel s with
      | None => None
      | Some (x, r) =>
          match skip_ws r with
          | [] => None
          | c :: r1 =>
              if (c =? "]")%char then Some ([x], r1)
              else if (c =? ",")%char then
                match elements fuel r1 with
                | Some (xs, t) => Some (x :: xs, t)
                | None => None
                end
              else None
          end
      end
  end.

(** A whole text: one value, with white space around it and nothing else. *)
Definition parse (b : bytes) : option json :=
  let s := list_ascii_of_string b in
  match value (S (List.length s)) s with
  | Some (j, r) => match skip_ws r with [] => Some j | _ :: _ => None end
  | None => None
  end.

(** *** Decoding into the structs of [listen] *)

Definition lower (c : ascii) : ascii :=
  let n := nat_of_ascii c in
  if (65 <=? n)%nat && (n <=? 90)%nat then ascii_of_nat (n + 32) else c.

Definition fold_name (s : string) : string :=
  string_of_list_ascii (map lower (list_ascii_of_string s)).

(** The object key [key] names the struct field tagged [tag]. *)
Definition names (key tag : string) : bool :=
  String.eqb (fold_name key) (fold_name tag).

Fixpoint digits_value (acc : Z) (s : list ascii) : option Z :=
  match s with
  | [] => Some acc
  | c :: r =>
      if is_digit c
      then digits_value (10 * acc + Z.of_nat (nat_of_ascii c - 48)) r
      else None
  end.

(** strconv.ParseUint(lit, 10, 64), then the overflow test for uint32 *)
Definition uint32_of (lit : string) : option Z :=
  match list_ascii_of_string lit with
  | [] => None
  | s =>
      match digits_value 0 s with
      | Some z => if (z <? uint32_modulus)%Z then Some z else None
      | None => None
      end
  end.

(** strconv.ParseInt(lit, 10, 64) *)
Definition int_of (lit : string) : option Z :=
  let '(neg, s) := match list_ascii_of_string lit with
                   | c :: r => if (c =? "-")%char then (true, r) else (false, c :: r)
                   | [] => (false, [])
                   end in
  match s with
  | [] => None
  | _ =>
      match digits_value 0 s with
      | Some z =>
          let z := if neg then - z else z in
          if ((- 2 ^ 63 <=? z) && (z <? 2 ^ 63))%Z then Some z else None
      | None => None
      end
  end.

(** Storing a JSON value in a field: the field afterwards and the error
    raised.  [null] leaves the field alone; a value of the wrong kind
    raises a type error and leaves the field alone. *)
Definition store_uint32 (x : json) (old : Z) : Z * option error :=
  match x with
  | JNull => (old, None)
  | JNumber lit =>
      match uint32_of lit with
      | Some z => (z, None)
      | None => (old, Some UnmarshalTypeError)
      end
  | _ => (old, Some UnmarshalTypeError)
  end.

Definition store_int (x : json) (old : Z) : Z * option error :=
  match x with
  | JNull => (old, None)
  | JNumber lit =>
      match int_of lit with
      | Some z => (z, None)
      | None => (old, Some UnmarshalTypeError)
      end
  | _ => (old, Some UnmarshalTypeError)
  end.

Definition store_string (x : json) (old : string) : string * option error :=
  match x with
  | JNull => (old, None)
  | JString s => (s, None)
  | _ => (old, Some UnmarshalTypeError)
  end.

(** The decoder keeps the first error and goes on. *)
Definition saveError (saved new : option error) : option error :=
  match saved with
  | Some _ => saved
  | None => new
  end.

(** Storing an object in a struct: its members in order, each into the
    field its key names; other keys are skipped. *)
Definition store_struct {T : Type} (field : string -> json -> T -> option (T * option error))
    (x : json) (old : T) : T * option error :=
  match x with
  | JNull => (old, None)
  | JObject fs =>
      foldl (fun '(t, e) '(k, y) =>
               match field k y t with
               | Some (t', e') => (t', saveError e e')
               | None => (t, e)
               end) (old, None) fs
  | _ => (old, Some UnmarshalTypeError)
  end.

Definition store_rpc_error : json -> rpc_error -> rpc_error * option error :=
  store_struct (fun k y t =>
    if names k "code" then
      let '(c, e) := store_int y (Code t) in
      Some ({| Code := c; Message := Message t |}, e)
    else if names k "message" then
      let '(m, e) := store_string y (Message t) in
      Some ({| Code := Code t; Message := m |}, e)
    else None).

Definition store_envelope : json -> envelope -> envelope * option error :=
  store_struct (fun k y t =>
    if names k "id" then
      let '(i, e) := store_uint32 y (ID t) in
      Some ({| ID := i; Method := Method t; Error := Error t |}, e)
    else if names k "method" then
      let '(m, e) := store_string y (Method t) in
      Some ({| ID := ID t; Method := m; Error := Error t |}, e)
    else if names k "error" then
      let '(r, e) := store_rpc_error y (Error t) in
      Some ({| ID := ID t; Method := Method t; Error := r |}, e)
    else None).

Definition store_rpc_error2 : json -> rpc_error2 -> rpc_error2 * option error :=
  store_struct (fun k y t =>
    if names k "code" then
      let '(c, e) := store_int y (Code2 t) in
      Some ({| Code2 := c; Message2 := Message2 t |}, e)
    else if names k "message" then
      let '(m, e) := store_rpc_error y (Message2 t) in
      Some ({| Code2 := Code2 t; Message2 := m |}, e)
    else None).

Definition store_envelope2 : json -> envelope2 -> envelope2 * option error :=
  store_struct (fun k y t =>
    if names k "id" then
      let '(i, e) := store_uint32 y (ID2 t) in
      Some ({| ID2 := i; Method2 := Method2 t; Error2 := Error2 t |}, e)
    else if names k "method" then
      let '(m, e) := store_string y (Method2 t) in
      Some ({| ID2 := ID2 t; Method2 := m; Error2 := Error2 t |}, e)
    else if names k "error" then
      let '(r, e) := store_rpc_error2 y (Error2 t) in
      Some ({| ID2 := ID2 t; Method2 := Method2 t; Error2 := r |}, e)
    else None).

(** json.Unmarshal: a text that is not JSON is rejected before anything is
    stored. *)
Definition Unmarshal_with {T : Type} (st : json -> T -> T * option error)
    : Unmarshal T :=
  fun b old =>
    match parse b with
    | None => (old, Some SyntaxError)
    | Some x => st x old
    end.

#[export] Instance Unmarshal_envelope : Unmarshal envelope :=
  Unmarshal_with store_envelope.

#[export] Instance Unmarshal_envelope2 : Unmarshal envelope2 :=
  Unmarshal_with store_envelope2.

(** A caller's output: [struct { Result interface{} `json:"result"` }]. *)
Record reply : Type := { Result : option json }.

Definition store_reply : json -> reply -> reply * option error :=
  store_struct (fun k y t =>
    if names k "result" then
      Some ({| Result := match y with JNull => None | _ => Some y end |}, None)
    else None).

#[export] Instance Unmarshal_reply : Unmarshal reply :=
  Unmarshal_with store_reply.

(** *** Encoding the struct of [request] *)

Definition hex (n : nat) : ascii :=
  if (n <? 10)%nat then ascii_of_nat (48 + n) else ascii_of_nat (87 + n).

(** A byte of a string, as json.Marshal writes it (HTML escaping on). *)
Definition escape (c : ascii) : list ascii :=
  let n := nat_of_ascii c in
  if (c =? quote)%char || (c =? backslash)%char then [backslash; c]
  else if (c =? "010")%char then [backslash; "n"%char]
  else if (c =? "013")%char then [backslash; "r"%char]
  else if (c =? "009")%char then [backslash; "t"%char]
  else if (n <? 32)%nat || (c =? "<")%char || (c =? ">")%char || (c =? "&")%char
  then [backslash; "u"%char; "0"%char; "0"%char; hex (n / 16); hex (n mod 16)]
  else [c].

Definition quoted (s : string) : list ascii :=
  quote :: concat (map escape (list_ascii_of_string s)) ++ [quote].

Fixpoint commas (xs : list (list ascii)) : list ascii :=
  match xs with
  | [] => []
  | [x] => x
  | x :: rest => x ++ ","%char :: commas rest
  end.

Definition decimal (z : Z) : list ascii :=
  list_ascii_of_string (NilZero.string_of_int (Z.to_int z)).

Definition encode_request (m : request_msg) : list ascii :=
  "{"%char :: quoted "id" ++ ":"%char :: decimal (req_ID m)
  ++ ","%char :: quoted "method" ++ ":"%char :: quoted (req_Method m)
  ++ ","%char :: quoted "params" ++ ":"%char ::
     match req_Params m with
     | None => list_ascii_of_string "null"
     | Some ps => "["%char :: commas (map quoted ps) ++ ["]"%char]
     end
  ++ ["}"%char].

#[export] Instance Marshal_request : Marshal request_msg :=
  fun m => inl (string_of_list_ascii (encode_request m)).

(** const delimiter = byte('\n'), from wallet/transport.go *)
#[export] Instance newline : Framing := "010"%char.

(** Writing frames with ' for the double quote. *)
Definition dq (s : string) : string :=
  string_of_list_ascii
    (map (fun c => if (c =? "'")%char then quote else c) (list_ascii_of_string s)).

End GoJSON.

(** ** Concrete runs *)

Module Scenario.

Import GoJSON.

(** Dialling [a.example] times out, the name [b.example] does not resolve,
    [c.example] answers, and anything else refuses the connection. *)
Definition dial (addr : string) : TCPTransport + error :=
  if String.eqb addr "a.example" then inr ErrTimeout
  else if String.eqb addr "b.example" then inr (OpError "no such host")
  else if String.eqb addr "c.example" then inl {| remote := addr |}
  else inr (OpError "connection refused").

(** Random draws that make [rand.Shuffle] keep the order, and draws that
    always pick index 0. *)
Definition keep_order (i : nat) : nat := i.
Definition pick_first (i : nat) : nat := 0%nat.

(** A Node connected to [c.example], with nothing else done to it. *)
Definition node0 : Node := c_node (Connect keep_order dial NewNode ["c.example"]).
Definition w0 : World := {| node := node0; chans := ∅; wire := []; logged := [] |}.

(** The first request: server.version. *)
Definition no_reply : reply := {| Result := None |}.
Definition version : @call reply :=
  start "server.version" (Some ["reflector.go"; "1.0"]) no_reply.

(** The request has been sent and waits. *)
Definition w1 : World := (issue None w0 version).1.
Definition t1 : @call reply := (issue None w0 version).2.

(** What a server may send back. *)
Definition reply_frame : bytes := dq "{'id':0,'result':['lbryum','1.0']}".
Definition garbage_frame : bytes := "HTTP/1.1 400 Bad Request".
Definition bad_id_frame : bytes :=
  dq "{'id':'x','method':'blockchain.headers.subscribe'}".
Definition shape_A_frame : bytes :=
  dq "{'id':0,'method':'','error':{'code':-5,'message':'No such mempool transaction'}}".
Definition shape_B_frame : bytes :=
  dq "{'id':0,'method':'','error':{'code':1,'message':{'code':-5,'message':'No such mempool transaction'}}}".
Definition code_only_frame : bytes := dq "{'id':0,'error':{'code':5,'message':''}}".
Definition push_frame : bytes :=
  dq "{'id':7,'method':'blockchain.headers.subscribe','params':[{'height':1}]}".

(** The response arrived. *)
Definition w2 : World := (handle reply_frame w1).1.

(** Three subscribers to the headers: channels 5 and 7 have room, channel 6
    is full; channel 8 subscribes to something else. *)
Definition stale : response := {| data := "old"; err := None |}.
Definition w_push : World :=
  {| node := set_pushHandlers
               (<["blockchain.headers.subscribe" := [5; 6; 7]%nat]>
                  (<["blockchain.address.subscribe" := [8%nat]]> ∅)) node0;
     chans := <[5%nat := make_chan 1]>
                (<[6%nat := {| cap := 1; buf := [stale] |}]>
                   (<[7%nat := make_chan 2]> (<[8%nat := make_chan 1]> ∅)));
     wire := []; logged := [] |}.



(** Two goroutines in request at once: both load the counter before either
    increments it; then each goes on to its select, the answer to id 0
    arrives, the second call takes it and the first runs into its timeout. *)
Definition go : input := {| send_err := None; sel := SelStop |}.
Definition race : list (@action reply) :=
  [Call "blockchain.claimtrie.resolve" (Some ["lbry://one"]) no_reply;
   Call "blockchain.claimtrie.resolve" (Some ["lbry://two"]) no_reply;
   Step 0 go; Step 1 go;                       (* both Load *)
   Step 0 go; Step 1 go].                      (* both Inc *)
Definition race_goes_on : list (@action reply) :=
  [Step 0 go; Step 0 go; Step 0 go;           (* the first registers and sends *)
   Step 1 go; Step 1 go; Step 1 go;           (* the second registers and sends *)
   Frame (dq "{'id':0,'result':'one'}");
   Step 1 {| send_err := None; sel := SelResponse |};
   Step 1 go;
   Step 0 {| send_err := None; sel := SelTimeout (1 * Second) |};
   Step 0 go].
Definition s0 : @System reply := {| world := w0; calls := []; recv_loop := Receiving |}.

(** The first request waits, its answer is in its channel and the receive
    loop is at its select. *)
Definition answered : @System reply :=
  {| world := w2; calls := [t1]; recv_loop := Receiving |}.

(** The same with the receive loop held in its send of a second answer. *)
Definition held : @System reply :=
  {| world := w2; calls := [t1];
     recv_loop := Delivering 0 {| data := reply_frame; err := None |} |}.

End Scenario.

(** * The blob stores

    [HTTPStore] (package store, the first part of src/store/http.go) reads
    blobs from an upstream reflector over HTTP; [DiskStore] keeps them in
    files.  Both are embedded as functions of the state they touch and of
    what the environment answers: the HTTP client, the clock, the buffer
    pool, the system calls. *)

Module Blobs.

(** An error value made by a library (net/http, io, os): what
    [os.IsNotExist] says of it, and its text. *)
Record lib_error : Type := { IsNotExist : bool; text : string }.

#[global] Instance lib_error_eq_dec : EqDecision lib_error.
Proof. solve_decision. Defined.

Inductive error : Type :=
| ErrBlobNotFound          (* the sentinel of package store *)
| ErrNotImplemented        (* shared.ErrNotImplemented *)
| Message (msg : string)   (* errors.Err(format, args...): the formatted text *)
| Lib (e : lib_error).     (* an error of a library, as it came *)

#[global] Instance error_eq_dec : EqDecision error.
Proof. solve_decision. Defined.

(** [errors.Err] attaches a stack trace; the error it carries is unchanged,
    and [errors.Err(nil)] is [nil]. *)
Definition Err (e : error) : error := e.

(** [shared.BlobTrace] is not among the sources: its operations are a
    signature. *)
Class BlobTrace (T : Type) : Type := {
  NewBlobTrace : Z -> string -> T;
  Stack : T -> Z -> string -> T;
  Deserialize : string -> T + error
}.

(** [%d] of an [int] *)
Definition itoa (z : Z) : string := NilZero.string_of_int (Z.to_int z).

(** [len(b)] *)
Definition len (b : bytes) : Z := Z.of_nat (String.length b).

End Blobs.

(** ** HTTPStore *)

Module HTTP.
Import Blobs.

(** The [httpClient] of the struct is the environment of [Has] and [Get]. *)
Record HTTPStore : Type := { upstream : string }.

Definition NewHTTPStore (upstream : string) : HTTPStore :=
  {| upstream := "http://" ++ upstream |}.

Definition nameHTTP : string := "http".

Definition Name (n : HTTPStore) : string := nameHTTP.

Record Request : Type := { Method : string; URL : string }.

(** An [io.ReadCloser]: the bytes that can be read from it, and the error
    that ends the reading where it is not [io.EOF]. *)
Record ReadCloser : Type := { content : bytes; failure : option lib_error }.

(** The [Body] of a response of [http.Client.Do] is never nil, so the test
    [res.Body != nil] of the source holds whenever it is made.
    [Via] is [res.Header.Get], empty when the header is absent. *)
Record Response : Type := { StatusCode : Z; Via : string; Body : ReadCloser }.

Definition StatusOK : Z := 200.
Definition StatusNoContent : Z := 204.
Definition StatusNotFound : Z := 404.

(** The parsing of the URL is the one step of [http.NewRequest] that can
    fail for the methods used here. *)
Class URLs : Type := parse_error : string -> option lib_error.

Definition NewRequest `{URLs} (method url : string) : Request + lib_error :=
  match parse_error url with
  | Some e => inr e
  | None => inl {| Method := method; URL := url |}
  end.

(** [ioutil.ReadAll] *)
Definition ReadAll (r : ReadCloser) : bytes * option lib_error :=
  (content r, failure r).

(** A [bytes.Buffer] that is only written to: its contents. *)
Abbreviation Buffer := string (only parsing).

(** [io.Copy(dst, src)] into a buffer: what is read is appended. *)
Definition Copy (dst : Buffer) (src : ReadCloser) : Buffer * (Z * option lib_error) :=
  (dst ++ content src, (len (content src), failure src)).

(** [make([]byte, n)] *)
Fixpoint make (n : nat) : bytes :=
  match n with
  | O => ""
  | S n' => String "000" (make n')
  end.

(** [copy(dst, src)]: the first [min(len(dst), len(src))] bytes of [src]
    replace those of [dst]. *)
Definition copy (dst src : bytes) : bytes :=
  let n := Nat.min (String.length dst) (String.length src) in
  substring 0 n src ++ substring n (String.length dst - n) dst.

(** errors.Err("upstream error. Status code: %d (%s)", res.StatusCode, string(body)) *)
Definition upstream_error (res : Response) : error :=
  let body := (ReadAll (Body res)).1 in
  Err (Message ("upstream error. Status code: " ++ itoa (StatusCode res)
                ++ " (" ++ body ++ ")")).

(** The variables of the package: the pool [buffers] (the contents of the
    buffers it holds) and the counter [metrics.MtrInBytesHTTP] (the values
    added to it, in order). *)
Record Globals : Type := { buffers : list Buffer; MtrInBytesHTTP : list Z }.

Definition set_buffers (p : list Buffer) (g : Globals) : Globals :=
  {| buffers := p; MtrInBytesHTTP := MtrInBytesHTTP g |}.

(** [metrics.MtrInBytesHTTP.Add] *)
Definition Add (v : Z) (g : Globals) : Globals :=
  {| buffers := buffers g; MtrInBytesHTTP := (MtrInBytesHTTP g ++ [v])%list |}.

(** A [sync.Pool] may let go of what it holds at any time: [mask] marks the
    buffers that were collected. *)
Fixpoint collect (mask : list bool) (pool : list Buffer) : list Buffer :=
  match pool, mask with
  | [], _ => []
  | _, [] => pool
  | b :: pool', true :: mask' => collect mask' pool'
  | b :: pool', false :: mask' => b :: collect mask' pool'
  end.

(** [sync.Pool.Get]: a buffer of the pool, of the pool's choosing, or a new
    one from [New] *)
Definition pool_Get (pick : option nat) (pool : list Buffer) : Buffer * list Buffer :=
  match pick with
  | Some i =>
      match pool !! i with
      | Some b => (b, delete i pool)
      | None => ("", pool)
      end
  | None => ("", pool)
  end.

(** What the environment decides in one call of [Get]: the answer of the
    client, what the pool does, and the two readings of the clock. *)
Record round : Type := {
  Do : Request -> Response + lib_error;
  collected : list bool;
  pick : option nat;
  since_first : Z;
  since_last : Z
}.

Definition getBuffer (r : round) (g : Globals) : Buffer * Globals :=
  let '(b, pool) := pool_Get (pick r) (collect (collected r) (buffers g)) in
  (b, set_buffers pool g).

(** [buf.Reset()] *)
Definition Reset (buf : Buffer) : Buffer := "".

Definition putBuffer (buf : Buffer) (g : Globals) : Globals :=
  let buf := Reset buf in
  set_buffers (buffers g ++ [buf])%list g.

Section Calls.
Context {T : Type} `{!BlobTrace T} `{!URLs}.

Definition Has (n : HTTPStore) (Do : Request -> Response + lib_error) (hash : string)
  : bool * option error :=
  let url := upstream n ++ "/blob?hash=" ++ hash in
  match NewRequest "HEAD" url with
  | inr e => (false, Some (Err (Lib e)))
  | inl req =>
      match Do req with
      | inr e => (false, Some (Err (Lib e)))
      | inl res =>
          if (StatusCode res =? StatusNotFound)%Z then (false, None)
          else if (StatusCode res =? StatusNoContent)%Z then (true, None)
          else (false, Some (upstream_error res))
      end
  end.

(** What [Get] returns: the blob ([None] is nil), the trace, the error. *)
Record got : Type := { blob : option bytes; trace : T; err : option error }.

Definition Get (n : HTTPStore) (r : round) (g : Globals) (hash : string) : Globals * got :=
  let url := upstream n ++ "/blob?hash=" ++ hash in
  match NewRequest "GET" url with
  | inr e =>
      (g, {| blob := None; trace := NewBlobTrace (since_first r) (Name n);
             err := Some (Err (Lib e)) |})
  | inl req =>
      match Do r req with
      | inr e =>
          (g, {| blob := None; trace := NewBlobTrace (since_first r) (Name n);
                 err := Some (Err (Lib e)) |})
      | inl res =>
          let '(tmp, g) := getBuffer r g in
          (* defer putBuffer(tmp) *)
          let returning (tmp : Buffer) (g : Globals) (out : got) := (putBuffer tmp g, out) in
          let serialized := Via res in
          let trace0 := NewBlobTrace (since_first r) (Name n) in
          match (if String.eqb serialized "" then inl trace0 else Deserialize serialized) with
          | inr e =>
              returning tmp g
                {| blob := None; trace := NewBlobTrace (since_last r) (Name n);
                   err := Some e |}
          | inl trace1 =>
              if (StatusCode res =? StatusNotFound)%Z then
                returning tmp g
                  {| blob := None; trace := Stack trace1 (since_last r) (Name n);
                     err := Some ErrBlobNotFound |}
              else if (StatusCode res =? StatusOK)%Z then
                let '(tmp, (written, e)) := Copy tmp (Body res) in
                match e with
                | Some e =>
                    returning tmp g
                      {| blob := None; trace := Stack trace1 (since_last r) (Name n);
                         err := Some (Err (Lib e)) |}
                | None =>
                    let b := copy (make (Z.to_nat written)) tmp in
                    let g := Add (len b) g in
                    returning tmp g
                      {| blob := Some b; trace := Stack trace1 (since_last r) (Name n);
                         err := None |}
                end
              else
                returning tmp g
                  {| blob := None; trace := Stack trace1 (since_last r) (Name n);
                     err := Some (upstream_error res) |}
          end
      end
  end.

Definition Put (n : HTTPStore) (hash : string) (b : bytes) : option error :=
  Some ErrNotImplemented.

Definition PutSD (n : HTTPStore) (hash : string) (b : bytes) : option error :=
  Some ErrNotImplemented.

Definition Delete (n : HTTPStore) (hash : string) : option error :=
  Some ErrNotImplemented.

(** Calls of [Get] one after the other. *)
Fixpoint Gets (n : HTTPStore) (calls : list (round * string)) (g : Globals)
  : Globals * list got :=
  match calls with
  | [] => (g, [])
  | (r, hash) :: rest =>
      let '(g1, out) := Get n r g hash in
      let '(g2, outs) := Gets n rest g1 in
      (g2, out :: outs)
  end.

(** The pool holds reset buffers only. *)
Definition pool_clean (g : Globals) : Prop := Forall (eq "") (buffers g).

(** The body of the answer a call of [Get] was given, if it was given one. *)
Definition answer_of (n : HTTPStore) (c : round * string) : option Response :=
  match NewRequest "GET" (upstream n ++ "/blob?hash=" ++ c.2) with
  | inl req => match Do c.1 req with inl res => Some res | inr _ => None end
  | inr _ => None
  end.

(** The header [Via] of an answer is absent or can be deserialized. *)
Definition via_ok (res : Response) : bool :=
  String.eqb (Via res) "" ||
  match Deserialize (T := T) (Via res) with inl _ => true | inr _ => false end.

(** The answers [Get] makes a blob of. *)
Definition served (res : Response) : bool :=
  via_ok res && (StatusCode res =? StatusOK)%Z && bool_decide (failure (Body res) = None).

End Calls.

Arguments got : clear implicits.

End HTTP.

(** ** DiskStore *)

Module Disk.
Import Blobs.

Record DiskStore : Type := {
  blobDir : string;
  prefixLength : Z;
  initialized : bool;
  concurrentChecks : Z   (* an atomic.Int32; [Get] never takes it out of range *)
}.

Definition maxConcurrentChecks : Z := 30.

Definition NewDiskStore (dir : string) (prefixLength : Z) : DiskStore :=
  {| blobDir := dir; prefixLength := prefixLength;
     initialized := false; concurrentChecks := 0 |}.

Definition nameDisk : string := "disk".

Definition Name (d : DiskStore) : string := nameDisk.

(** [path.Join] of two elements and the hexadecimal SHA-384 of a blob
    ([hex.EncodeToString] of [sha512.Sum384]) are signatures. *)
Class Paths : Type := Join : string -> string -> string.
Class Digest : Type := sha384_hex : bytes -> string.

(** The store, the regular files of the disk by path, and the log. *)
Record Disk : Type := {
  store : DiskStore;
  files : gmap string bytes;
  errors_logged : list string
}.

Definition set_store (d : DiskStore) (k : Disk) : Disk :=
  {| store := d; files := files k; errors_logged := errors_logged k |}.

Definition set_files (fs : gmap string bytes) (k : Disk) : Disk :=
  {| store := store k; files := fs; errors_logged := errors_logged k |}.

Definition Errorf (msg : string) (k : Disk) : Disk :=
  {| store := store k; files := files k; errors_logged := (errors_logged k ++ [msg])%list |}.

Definition set_initialized (b : bool) (d : DiskStore) : DiskStore :=
  {| blobDir := blobDir d; prefixLength := prefixLength d;
     initialized := b; concurrentChecks := concurrentChecks d |}.

Definition checks_Add (v : Z) (d : DiskStore) : DiskStore :=
  {| blobDir := blobDir d; prefixLength := prefixLength d;
     initialized := initialized d; concurrentChecks := concurrentChecks d + v |}.

(** What the environment decides in one call: the fault, if any, that each
    system call of the call runs into, and the reading of the clock at the
    return. *)
Record faults : Type := {
  mkdir_blobs : option lib_error;
  mkdir_tmp : option lib_error;
  stat : option lib_error;
  read : option lib_error;
  remove : option lib_error;
  took : Z
}.

Definition no_faults : faults :=
  {| mkdir_blobs := None; mkdir_tmp := None; stat := None; read := None;
     remove := None; took := 0 |}.

(** The error of a system call on a path that names nothing. *)
Definition ENOENT (op path : string) : lib_error :=
  {| IsNotExist := true; text := op ++ " " ++ path ++ ": no such file or directory" |}.

(** [os.MkdirAll]: directories are not kept in the model; the call fails
    when the environment says so. *)
Definition MkdirAll (fault : option lib_error) (dir : string) : option lib_error := fault.

Definition Stat (fault : option lib_error) (fs : gmap string bytes) (p : string)
  : option lib_error :=
  match fault with
  | Some e => Some e
  | None => match fs !! p with Some _ => None | None => Some (ENOENT "stat" p) end
  end.

Definition ReadFile (fault : option lib_error) (fs : gmap string bytes) (p : string)
  : bytes + lib_error :=
  match fault with
  | Some e => inr e
  | None => match fs !! p with Some b => inl b | None => inr (ENOENT "open" p) end
  end.

Definition Remove (fault : option lib_error) (fs : gmap string bytes) (p : string)
  : gmap string bytes * option lib_error :=
  match fault with
  | Some e => (fs, Some e)
  | None =>
      match fs !! p with
      | Some _ => (base.delete p fs, None)
      | None => (fs, Some (ENOENT "remove" p))
      end
  end.

Section Calls.
Context {T : Type} `{!BlobTrace T} `{!Paths} `{!Digest}.

Definition dir (d : DiskStore) (hash : string) : string :=
  if (prefixLength d <=? 0)%Z || (len hash <? prefixLength d)%Z then blobDir d
  else Join (blobDir d) (substring 0 (Z.to_nat (prefixLength d)) hash).

Definition tmpDir (d : DiskStore) (hash : string) : string := Join (blobDir d) "tmp".

Definition path (d : DiskStore) (hash : string) : string := Join (dir d hash) hash.

Definition tmpPath (d : DiskStore) (hash : string) : string := Join (tmpDir d hash) hash.

Definition ensureDirExists (fault : option lib_error) (dir : string) : option error :=
  (fun e => Err (Lib e)) <$> MkdirAll fault dir.

Definition initOnce (f : faults) (k : Disk) : Disk * option error :=
  if initialized (store k) then (k, None)
  else
    match ensureDirExists (mkdir_blobs f) (blobDir (store k)) with
    | Some e => (k, Some e)
    | None =>
        match ensureDirExists (mkdir_tmp f) (Join (blobDir (store k)) "tmp") with
        | Some e => (k, Some e)
        | None => (set_store (set_initialized true (store k)) k, None)
        end
    end.

(** [initOnce] succeeds: it has been done, or no directory fails to be made. *)
Definition ready (f : faults) (k : Disk) : Prop :=
  initialized (store k) = true \/ (mkdir_blobs f = None /\ mkdir_tmp f = None).

Definition Has (f : faults) (k : Disk) (hash : string) : Disk * (bool * option error) :=
  let '(k, e) := initOnce f k in
  match e with
  | Some e => (k, (false, Some e))
  | None =>
      match Stat (stat f) (files k) (path (store k) hash) with
      | Some e =>
          if IsNotExist e then (k, (false, None))
          else (k, (false, Some (Err (Lib e))))
      | None => (k, (true, None))
      end
  end.

Definition Delete (f : faults) (k : Disk) (hash : string) : Disk * option error :=
  let '(k, e) := initOnce f k in
  match e with
  | Some e => (k, Some e)
  | None =>
      let '(k, (has, e)) := Has f k hash in
      match e with
      | Some e => (k, Some e)
      | None =>
          if negb has then (k, None)
          else
            let '(fs, e) := Remove (remove f) (files k) (path (store k) hash) in
            (set_files fs k, (fun e => Err (Lib e)) <$> e)
      end
  end.

(** What [Get] returns: the blob ([None] is nil), the trace, the error. *)
Record got : Type := { blob : option bytes; trace : T; err : option error }.

(** fmt.Sprintf("[%s] found a broken blob while reading from disk. Actual hash: %s", hash, readHash) *)
Definition broken_blob (hash readHash : string) : string :=
  "[" ++ hash ++ "] found a broken blob while reading from disk. Actual hash: " ++ readHash.

Definition Get (f : faults) (k : Disk) (hash : string) : Disk * got :=
  let '(k, e) := initOnce f k in
  match e with
  | Some e =>
      (k, {| blob := None; trace := NewBlobTrace (took f) (Name (store k)); err := Some e |})
  | None =>
      match ReadFile (read f) (files k) (path (store k) hash) with
      | inr e =>
          if IsNotExist e then
            (k, {| blob := None; trace := NewBlobTrace (took f) (Name (store k));
                   err := Some (Err ErrBlobNotFound) |})
          else
            (k, {| blob := None; trace := NewBlobTrace (took f) (Name (store k));
                   err := Some (Err (Lib e)) |})
      | inl b =>
          if (concurrentChecks (store k) <? maxConcurrentChecks)%Z then
            let k := set_store (checks_Add 1 (store k)) k in
            (* defer d.concurrentChecks.Sub(1) *)
            let returning (k : Disk) (out : got) :=
              (set_store (checks_Add (-1) (store k)) k, out) in
            let readHash := sha384_hex b in
            if negb (String.eqb hash readHash) then
              let message := broken_blob hash readHash in
              let k := Errorf message k in
              let '(k, e) := Delete f k hash in
              match e with
              | Some e =>
                  returning k
                    {| blob := None; trace := NewBlobTrace (took f) (Name (store k));
                       err := Some e |}
              | None =>
                  returning k
                    {| blob := None; trace := NewBlobTrace (took f) (Name (store k));
                       err := Some (Err (Message message)) |}
              end
            else
              returning k
                {| blob := Some b; trace := NewBlobTrace (took f) (Name (store k));
                   err := None |}
          else
            (k, {| blob := Some b; trace := NewBlobTrace (took f) (Name (store k));
                   err := None |})
      end
  end.

End Calls.

Arguments got : clear implicits.

End Disk.

(** ** Concrete stores *)

Module StoreScenario.
Import Blobs.

(** Stand-ins for what the model leaves open: a trace that keeps its
    entries in a list and refuses to deserialize the text "?"; URLs that
    all parse; paths joined with a slash; and, in the place of SHA-384, a
    digest that writes "sha:" before the blob. *)
#[export] Instance trace_list : BlobTrace (list (Z * string)) := {|
  NewBlobTrace d name := [(d, name)];
  Stack t d name := (t ++ [(d, name)])%list;
  Deserialize s :=
    if String.eqb s "?" then inr (Message "bad trace") else inl [(0, s)]
|}.

#[export] Instance any_url : HTTP.URLs := fun _ => None.

#[export] Instance slash : Disk.Paths := fun a b => a ++ "/" ++ b.

#[export] Instance marked : Disk.Digest := fun b => "sha:" ++ b.

Definition reflector : HTTP.HTTPStore := HTTP.NewHTTPStore "reflector.example:5569".

Definition answering (code : Z) (via body : string) (pick : option nat) : HTTP.round :=
  {| HTTP.Do := fun _ =>
       inl {| HTTP.StatusCode := code; HTTP.Via := via;
              HTTP.Body := {| HTTP.content := body; HTTP.failure := None |} |};
     HTTP.collected := [];
     HTTP.pick := pick;
     HTTP.since_first := 1;
     HTTP.since_last := 2 |}.

(** Three calls: a blob, a miss, and a second blob read through the buffer
    the first call put back. *)
Definition three_gets : list (HTTP.round * string) :=
  [(answering 200 "" "first blob" None, "aa");
   (answering 404 "" "" (Some 0%nat), "bb");
   (answering 200 "cache" "second" (Some 0%nat), "cc")].

Definition at_start : HTTP.Globals := {| HTTP.buffers := []; HTTP.MtrInBytesHTTP := [] |}.

(** A new disk store over two files: one whose content has the digest it is
    filed under, one whose content does not. *)
Definition disk0 : Disk.Disk :=
  {| Disk.store := Disk.NewDiskStore "/blobs" 2;
     Disk.files := {[ "/blobs/sh/sha:good" := "good"; "/blobs/sh/sha:lost" := "damaged" ]};
     Disk.errors_logged := [] |}.


End StoreScenario.

(** * Properties *)

Local Open Scope list_scope.

(** ** Connect *)

Section ConnectProofs.

Implicit Types (addrs pre suf : list string) (dial : string -> TCPTransport + error).

Lemma insert_head_Permutation (l : list string) j b x :
  l !! j = Some b -> b :: <[j := x]> l ≡ₚ x :: l.
Proof.
  revert j. induction l as [|y l IH]; intros [|j] Hj; simplify_eq/=.
  - apply perm_swap.
  - rewrite perm_swap. rewrite (IH _ Hj). apply perm_swap.
Qed.

Lemma swap_Permutation i j addrs : swap i j addrs ≡ₚ addrs.
Proof.
  unfold swap.
  destruct (addrs !! i) as [a|] eqn:Hi; [|done].
  destruct (addrs !! j) as [b|] eqn:Hj; [|done].
  revert i j Hi Hj. induction addrs as [|x l IH]; intros [|i] [|j] Hi Hj; simplify_eq/=.
  - done.
  - by apply insert_head_Permutation.
  - by apply insert_head_Permutation.
  - by rewrite IH.
Qed.

Lemma swap_length i j addrs : length (swap i j addrs) = length addrs.
Proof.
  unfold swap. destruct (addrs !! i), (addrs !! j); try done.
  by rewrite !length_insert.
Qed.

Lemma shuffle_from_Permutation rnd i addrs : shuffle_from rnd swap i addrs ≡ₚ addrs.
Proof.
  revert addrs. induction i as [|i IH]; intros addrs; simpl; [done|].
  rewrite IH. apply swap_Permutation.
Qed.

Lemma Shuffle_Permutation rnd addrs :
  Shuffle rnd (length addrs) swap addrs ≡ₚ addrs.
Proof. apply shuffle_from_Permutation. Qed.

(** Every index [Shuffle] hands to [swap] is within the slice, so the
    [index out of range] panic cannot happen. *)
Lemma shuffle_indices_in_range rnd (n i : nat) :
  (0 < i <= n - 1)%nat -> (i < n)%nat /\ (rnd i mod S i < n)%nat.
Proof.
  intros Hi. split; [lia|].
  pose proof (Nat.mod_upper_bound (rnd i) (S i)). lia.
Qed.





End ConnectProofs.

Section ConnectClaims.

Implicit Types (addrs pre suf : list string) (dial : string -> TCPTransport + error).



(** C10. Connect on a Node without a transport shuffles the caller's slice
    in place before it dials anything: whatever Connect returns afterwards,
    the slice is left as [rand.Shuffle] arranged it, a permutation of what
    the caller passed.  Connect on a connected Node returns
    ErrNodeConnected with the slice, and the Node, as they were. *)
Theorem Connect_permutes_slice rnd dial n addrs :
  let r := Connect rnd dial n addrs in
  c_addrs r = match transport n with
              | Some _ => addrs
              | None => Shuffle rnd (length addrs) swap addrs
              end /\
  c_addrs r ≡ₚ addrs /\
  (forall t, transport n = Some t ->
     c_err r = Some ErrNodeConnected /\ c_node r = n /\ c_dialled r = []).
Proof.
  intros r. subst r. unfold Connect.
  destruct (transport n) as [t|] eqn:Hn; simpl.
  - split; [done|]. split; [done|]. intros t' _. done.
  - destruct (try_addrs dial _) as [tried [t|e|]]; simpl;
      (split; [done|]; split; [apply Shuffle_Permutation|done]).
Qed.

Lemma Connect_permutes_slice_witness :
  (let r := Connect Scenario.pick_first Scenario.dial NewNode
              ["a.example"; "b.example"] in
   c_addrs r = ["b.example"; "a.example"] /\ c_err r = Some ErrConnectFailed) /\
  (let n := set_transport (Some {| remote := "c.example" |}) NewNode in
   let r := Connect Scenario.pick_first Scenario.dial n ["a.example"; "b.example"] in
   c_addrs r = ["a.example"; "b.example"] /\ c_err r = Some ErrNodeConnected).
Proof.
  split.
  - pose proof (Connect_permutes_slice Scenario.pick_first Scenario.dial NewNode
                  ["a.example"; "b.example"]) as (Hs & _ & _).
    split; [exact Hs | reflexivity].
  - pose proof (Connect_permutes_slice Scenario.pick_first Scenario.dial
                  (set_transport (Some {| remote := "c.example" |}) NewNode)
                  ["a.example"; "b.example"]) as (Hs & _ & Hc).
    split; [exact Hs | apply (Hc _ eq_refl)].
Defined.

End ConnectClaims.

(** ** request *)

Section RequestProofs.

Context {V : Type}.
Context `{!Unmarshal envelope, !Unmarshal envelope2, !Unmarshal V}.
Context `{!Marshal request_msg, !Framing}.

Implicit Types (t : @call V) (o : V).

Lemma issue_sent w m p o b :
  marshal (msg_of w m p) = inl b ->
  issue None w (start m p o) =
    (push_wire (b ++ String delimiter "")%string (registered w),
     goto (AtSelect (msg_of w m p) (new_ref (chans w))) (start m p o)).
Proof.
  intros Hb. unfold msg_of in Hb.
  unfold issue, request_steps, request_step. cbn. rewrite Hb. reflexivity.
Qed.

Lemma issue_send_failed w m p o b e :
  marshal (msg_of w m p) = inl b ->
  issue (Some e) w (start m p o) =
    (registered w, goto (Returned (Some (Err e))) (start m p o)).
Proof.
  intros Hb. unfold msg_of in Hb.
  unfold issue, request_steps, request_step. cbn. rewrite Hb. reflexivity.
Qed.

Lemma issue_marshal_failed w m p o e r :
  marshal (msg_of w m p) = inr e ->
  issue r w (start m p o) =
    (set_node (set_nextID (Inc (nextID (node w))) (node w)) w,
     goto (Returned (Some (Err e))) (start m p o)).
Proof.
  intros Hb. unfold msg_of in Hb.
  unfold issue, request_steps, request_step. cbn. rewrite Hb. reflexivity.
Qed.

Lemma resolve_stop w t msg c :
  pc t = AtSelect msg c -> closed (grp (node w)) = true ->
  resolve SelStop w t = (w, goto (Returned None) t).
Proof.
  intros Hpc Hc. unfold resolve. simpl.
  unfold request_step at 1. rewrite Hpc. simpl. rewrite Hc.
  reflexivity.
Qed.

Lemma resolve_response w t msg c r h :
  pc t = AtSelect msg c -> recv (chans w) c = Some (r, h) ->
  resolve SelResponse w t =
    (set_node (set_handlers (delete (req_ID msg) (handlers (node w))) (node w))
       (set_chans h w),
     finish r (goto (AtDelete msg r) t)).
Proof.
  intros Hpc Hr. unfold resolve. simpl.
  unfold request_step at 1. rewrite Hpc. simpl. rewrite Hr.
  reflexivity.
Qed.

Lemma resolve_timeout w t msg c elapsed :
  pc t = AtSelect msg c -> timeout (node w) <= elapsed ->
  resolve (SelTimeout elapsed) w t =
    (set_node (set_handlers (delete (req_ID msg) (handlers (node w))) (node w)) w,
     goto (Returned (Some ErrTimeout)) t).
Proof.
  intros Hpc Hr. unfold resolve. simpl.
  unfold request_step at 1. rewrite Hpc. simpl.
  rewrite bool_decide_true by done. reflexivity.
Qed.

(** While none of its cases is ready the select keeps the call waiting. *)
Lemma resolve_waits w t msg c s :
  pc t = AtSelect msg c ->
  match s with
  | SelStop => closed (grp (node w)) = false
  | SelResponse => recv (chans w) c = None
  | SelTimeout elapsed => elapsed < timeout (node w)
  end ->
  resolve s w t = (w, t).
Proof.
  intros Hpc Hs. unfold resolve. simpl.
  unfold request_step. rewrite !Hpc. simpl.
  destruct s; simpl.
  - rewrite Hs. simpl. rewrite Hpc. simpl. by rewrite Hs.
  - rewrite Hs. simpl. rewrite Hpc. simpl. by rewrite Hs.
  - rewrite bool_decide_false by lia. simpl. rewrite Hpc. simpl.
    by rewrite bool_decide_false by lia.
Qed.

Lemma finish_returned r t : exists e, pc (finish r t) = Returned e.
Proof.
  unfold finish. destruct (err r) as [e|]; [by eexists|].
  destruct (unmarshal (data r) (out t)) as [o e]. by eexists.
Qed.

Lemma finish_outcome r t :
  pc (finish r t) =
    Returned (match err r with
              | Some e => Some e
              | None => (unmarshal (data r) (out t)).2
              end).
Proof.
  unfold finish. destruct (err r) as [e|]; [done|].
  by destruct (unmarshal (data r) (out t)) as [o e].
Qed.

Lemma Connect_nextID rnd dial n addrs :
  nextID (c_node (Connect rnd dial n addrs)) = nextID n.
Proof.
  unfold Connect. destruct (transport n); [done|].
  by destruct (try_addrs dial _) as [tried [t|e|]].
Qed.

(** C9. A Node made by NewNode and connected by Connect gives its first
    request the id 0, and the bytes the call hands to [transport.Send] are
    the JSON text of the request object [{id, method, params}] followed by
    the delimiter byte; when Send accepts them, they are what goes on the
    wire. *)
Theorem first_request_frame rnd dial addrs w m p o b i :
  c_err (Connect rnd dial NewNode addrs) = None ->
  node w = c_node (Connect rnd dial NewNode addrs) ->
  marshal {| req_ID := 0; req_Method := m; req_Params := p |} = inl b ->
  let msg := {| req_ID := 0; req_Method := m; req_Params := p |} in
  let frame := (b ++ String delimiter "")%string in
  pc (request_steps 4 i w (start m p o)).2 = AtSend msg frame (new_ref (chans w)) /\
  wire (issue None w (start m p o)).1 = wire w ++ [frame].
Proof.
  intros _ Hn Hb msg frame.
  assert (Hid : nextID (node w) = 0) by (by rewrite Hn, Connect_nextID).
  split.
  - unfold request_steps, request_step. cbn. rewrite Hid, Hb. reflexivity.
  - rewrite (issue_sent w m p o b) by (unfold msg_of; by rewrite Hid).
    reflexivity.
Qed.

(** C1, as the code has it.  A call that got its frame sent has its entry
    registered under its id.  When its wait is ended by a response or by
    the timeout, the call deletes that entry, and nothing else, before it
    returns.  When its wait is ended by the shutdown signal, the call
    returns at once and the map is left as it was. *)
Theorem request_removes_entry w m p o b :
  marshal (msg_of w m p) = inl b ->
  let id := nextID (node w) in
  let c := new_ref (chans w) in
  let w1 := (issue None w (start m p o)).1 in
  let t1 := (issue None w (start m p o)).2 in
  handlers (node w1) = <[id := c]> (handlers (node w)) /\
  forall w2,
    (forall r h, recv (chans w2) c = Some (r, h) ->
       handlers (node (resolve SelResponse w2 t1).1) = delete id (handlers (node w2)) /\
       exists e, pc (resolve SelResponse w2 t1).2 = Returned e) /\
    (forall elapsed, timeout (node w2) <= elapsed ->
       handlers (node (resolve (SelTimeout elapsed) w2 t1).1)
         = delete id (handlers (node w2)) /\
       pc (resolve (SelTimeout elapsed) w2 t1).2 = Returned (Some ErrTimeout)) /\
    (closed (grp (node w2)) = true ->
       resolve SelStop w2 t1 = (w2, goto (Returned None) t1)).
Proof.
  intros Hb id c w1 t1. subst w1 t1.
  rewrite (issue_sent w m p o b Hb). cbn [fst snd].
  split; [reflexivity|]. intros w2. split; [|split].
  - intros r h Hr. erewrite resolve_response by (reflexivity || eassumption).
    split; [reflexivity|]. apply finish_returned.
  - intros elapsed He. erewrite resolve_timeout by (reflexivity || eassumption).
    split; reflexivity.
  - intros Hc. by erewrite resolve_stop.
Qed.

(** C3, as the code has it.  A call whose frame was serialized and sent
    waits in its select, and leaves it by the case that is taken: with the
    group stopped it returns nil; with a response in its channel it returns
    the error of the response or, without one, the result of decoding the
    payload into the caller's output, which then holds what was decoded;
    with the timeout elapsed it returns ErrTimeout.  While none of the three
    is the case it stays where it is.  The timeout of a new Node is one
    second. *)
Theorem request_select_outcome w m p o b :
  marshal (msg_of w m p) = inl b ->
  let c := new_ref (chans w) in
  let t1 := (issue None w (start m p o)).2 in
  pc t1 = AtSelect (msg_of w m p) c /\
  timeout NewNode = 1 * Second /\
  forall w2,
    (closed (grp (node w2)) = true ->
       pc (resolve SelStop w2 t1).2 = Returned None) /\
    (forall r h, recv (chans w2) c = Some (r, h) ->
       pc (resolve SelResponse w2 t1).2 =
         Returned (match err r with
                   | Some e => Some e
                   | None => (unmarshal (data r) o).2
                   end) /\
       out (resolve SelResponse w2 t1).2 =
         match err r with
         | Some e => o
         | None => (unmarshal (data r) o).1
         end) /\
    (forall elapsed, timeout (node w2) <= elapsed ->
       pc (resolve (SelTimeout elapsed) w2 t1).2 = Returned (Some ErrTimeout)) /\
    (forall s,
       match s with
       | SelStop => closed (grp (node w2)) = false
       | SelResponse => recv (chans w2) c = None
       | SelTimeout elapsed => elapsed < timeout (node w2)
       end ->
       resolve s w2 t1 = (w2, t1)).
Proof.
  intros Hb c t1. subst t1.
  rewrite (issue_sent w m p o b Hb). cbn [fst snd].
  split; [reflexivity|]. split; [reflexivity|]. intros w2.
  split; [|split; [|split]].
  - intros Hc. by erewrite resolve_stop.
  - intros r h Hr. erewrite resolve_response by (reflexivity || eassumption).
    cbn [snd]. rewrite finish_outcome. split; [done|].
    unfold finish. destruct (err r); [done|].
    by destruct (unmarshal (data r) _).
  - intros elapsed He. by erewrite resolve_timeout.
  - intros s Hs. by eapply resolve_waits.
Qed.

(** A call whose Send fails returns the error of the transport and leaves
    the entry it registered in the map, on a Node that goes on running. *)
Theorem request_send_failure_keeps_entry w m p o b e :
  marshal (msg_of w m p) = inl b ->
  let w1 := (issue (Some e) w (start m p o)).1 in
  let t1 := (issue (Some e) w (start m p o)).2 in
  pc t1 = Returned (Some e) /\
  handlers (node w1) !! nextID (node w) = Some (new_ref (chans w)) /\
  grp (node w1) = grp (node w).
Proof.
  intros Hb w1 t1. subst w1 t1. rewrite (issue_send_failed w m p o b e Hb).
  cbn. by rewrite lookup_insert_eq.
Qed.

End RequestProofs.

(** ** listen *)

Section ListenProofs.

Context {V : Type}.
Context `{!Unmarshal envelope, !Unmarshal envelope2, !Unmarshal V}.
Context `{!Marshal request_msg, !Framing}.

Lemma nonempty_length (s : string) : (0 < String.length s)%nat <-> s <> "".
Proof. destruct s; simpl; split; (done || lia). Qed.

Lemma decode_primary b msg :
  unmarshal b envelope_zero = (msg, None) -> decode b = (msg, None).
Proof. intros Hb. unfold decode. by rewrite Hb. Qed.

Lemma decode_alternate b m1 e1 m2 :
  unmarshal b envelope_zero = (m1, Some e1) ->
  unmarshal b envelope2_zero = (m2, None) ->
  decode b = ({| ID := ID2 m2; Method := Method2 m2;
                 Error := Message2 (Error2 m2) |}, None).
Proof. intros H1 H2. unfold decode. by rewrite H1, H2. Qed.

Lemma decode_failed b m1 e1 m2 e2 :
  unmarshal b envelope_zero = (m1, Some e1) ->
  unmarshal b envelope2_zero = (m2, Some e2) ->
  decode b = (m1, Some e1).
Proof. intros H1 H2. unfold decode. by rewrite H1, H2. Qed.

(** The response a frame is turned into and the id it is routed by. *)
Lemma handle_decoded b w msg e :
  decode b = (msg, e) ->
  handle b w =
    let r := classify b msg e in
    let w := match e with Some e1 => Node_err (Err e1) w | None => w end in
    let w := if bool_decide (0 < String.length (Method msg))%nat
             then set_chans (broadcast r (subscribers (node w) (Method msg)) (chans w)) w
             else w in
    deliver msg r w.
Proof. intros Hd. unfold handle. by rewrite Hd. Qed.

Lemma try_send_lookup h c0 r c :
  try_send h c0 r !! c = if decide (c = c0) then offer r <$> h !! c else h !! c.
Proof.
  unfold try_send, send, offer.
  destruct (decide (c = c0)) as [->|Hne].
  - destruct (h !! c0) as [ch|] eqn:Hc; simpl; [|by rewrite Hc].
    destruct (has_room ch); [by rewrite lookup_insert_eq | by rewrite Hc].
  - destruct (h !! c0) as [ch|]; [|done].
    destruct (has_room ch); [by rewrite lookup_insert_ne | done].
Qed.

Lemma broadcast_cons r c0 subs h :
  broadcast r (c0 :: subs) h = broadcast r subs (try_send h c0 r).
Proof. reflexivity. Qed.

(** A channel is offered the response once for every time it is in the
    list; what becomes of it depends on nothing but its own state. *)
Lemma broadcast_lookup r subs h c :
  broadcast r subs h !! c =
    Nat.iter (length (filter (fun x => x = c) subs)) (offer r) <$> h !! c.
Proof.
  revert h. induction subs as [|c0 subs IH]; intros h.
  - simpl. by destruct (h !! c).
  - rewrite broadcast_cons, IH, try_send_lookup, filter_cons.
    destruct (decide (c = c0)) as [->|Hne].
    + rewrite decide_True by done.
      destruct (h !! c0) as [ch|]; [|done]. simpl.
      by rewrite <- Nat.iter_succ, Nat.iter_succ_r.
    + by rewrite decide_False by done.
Qed.

Lemma filter_eq_absent (c : nat) subs : c ∉ subs -> filter (fun x => x = c) subs = [].
Proof.
  induction subs as [|c0 subs IH]; [done|]. intros Hc.
  rewrite not_elem_of_cons in Hc. destruct Hc as [Hne Hc].
  rewrite filter_cons, decide_False by done. by apply IH.
Qed.

Lemma filter_eq_once (c : nat) subs :
  NoDup subs -> c ∈ subs -> filter (fun x => x = c) subs = [c].
Proof.
  induction 1 as [|c0 subs Hc0 Hnd IH]; [by intros ?%elem_of_nil|].
  rewrite elem_of_cons. intros [->|Hc]; rewrite filter_cons.
  - rewrite decide_True by done. by rewrite filter_eq_absent.
  - rewrite decide_False by (intros ->; done). by apply IH.
Qed.

Lemma broadcast_other r subs h c : c ∉ subs -> broadcast r subs h !! c = h !! c.
Proof.
  intros Hc. rewrite broadcast_lookup, filter_eq_absent by done.
  by destruct (h !! c).
Qed.

Lemma offer_full r ch : has_room ch = false -> offer r ch = ch.
Proof. unfold offer. by intros ->. Qed.

Lemma iter_offer_full r ch k : has_room ch = false -> Nat.iter k (offer r) ch = ch.
Proof. intros Hf. induction k as [|k IH]; simpl; [done|]. by rewrite IH, offer_full. Qed.

Lemma deliver_nobody msg r w :
  handlers (node w) !! ID msg = None -> deliver msg r w = (w, Receiving).
Proof. intros Hn. unfold deliver. by rewrite Hn. Qed.

Lemma set_chans_same w : set_chans (chans w) w = w.
Proof. by destruct w. Qed.

(** C2, as the code has it.  A frame that neither shape decodes is logged
    and turned into a response carrying the decode error, and that
    response is routed as any other: by the method and the id the failed
    primary decode left in the envelope.  It is offered to the subscribers
    of that method, if the method is not empty, and sent to the request
    pending under that id, if there is one.  Only with no such subscriber
    and no such request does the frame reach no channel. *)
Theorem undecodable_frame_routed b w m1 e1 m2 e2 :
  unmarshal b envelope_zero = (m1, Some e1) ->
  unmarshal b envelope2_zero = (m2, Some e2) ->
  let r := {| data := ""; err := Some e1 |} in
  let subs := if bool_decide (0 < String.length (Method m1))%nat
              then subscribers (node w) (Method m1) else [] in
  handle b w = deliver m1 r (set_chans (broadcast r subs (chans w)) (Node_err e1 w)) /\
  logged (handle b w).1 = logged w ++ [e1] /\
  (forall c ch, handlers (node w) !! ID m1 = Some c -> c ∉ subs ->
     chans w !! c = Some ch -> has_room ch = true ->
     chans (handle b w).1 !! c = Some (enqueue ch r)) /\
  (subs = [] -> handlers (node w) !! ID m1 = None ->
   handle b w = (Node_err e1 w, Receiving)).
Proof.
  intros H1 H2 r subs.
  assert (Hh : handle b w =
                 deliver m1 r (set_chans (broadcast r subs (chans w)) (Node_err e1 w))).
  { rewrite (handle_decoded b w m1 (Some e1)) by (by eapply decode_failed).
    subst r subs. cbn zeta. unfold classify, Err.
    destruct (bool_decide _); [done|].
    by rewrite <- (set_chans_same (Node_err e1 w)) at 1. }
  split; [done|]. rewrite Hh. unfold deliver. cbn [node set_chans Node_err chans].
  split; [|split].
  - destruct (handlers (node w) !! ID m1) as [c|]; [|done].
    by destruct (send _ c r).
  - intros c ch Hc Hsub Hch Hroom. rewrite Hc. unfold send.
    rewrite broadcast_other, Hch, Hroom by done. cbn.
    by rewrite lookup_insert_eq.
  - intros Hs Hn. rewrite Hs, Hn. by destruct w.
Qed.

(** C6. A frame of shape B, one the primary decode rejects and the
    alternate decode accepts, whose inner error has a message, is handled
    exactly as a frame of shape A that carries the same id, the same method
    and that inner error: the receive loop leaves the same state behind,
    hence the same response in the channel of the request that waits for
    it, and whatever that request does next it does the same. *)
Theorem shape_B_normalized bB bA m1 e1 m2 :
  unmarshal bB envelope_zero = (m1, Some e1) ->
  unmarshal bB envelope2_zero = (m2, None) ->
  unmarshal bA envelope_zero =
    ({| ID := ID2 m2; Method := Method2 m2; Error := Message2 (Error2 m2) |}, None) ->
  Message (Message2 (Error2 m2)) <> "" ->
  forall w,
    handle bB w = handle bA w /\
    forall (t : @call V) s,
      resolve s (handle bB w).1 t = resolve s (handle bA w).1 t.
Proof.
  intros H1 H2 HA Hm w.
  assert (Hh : handle bB w = handle bA w).
  { rewrite (handle_decoded bB w _ None) by (by eapply decode_alternate).
    rewrite (handle_decoded bA w _ None) by (by eapply decode_primary).
    unfold classify. cbn [Error Message Code].
    by rewrite bool_decide_true by (by apply nonempty_length). }
  split; [done|]. intros t s. by rewrite Hh.
Qed.

(** C7, as the code has it.  For a frame that was decoded, the response is
    decided by the error message alone: with a message it is the server
    error made of the error's code and message; without one it is the
    success response carrying the bytes of the frame, whatever the error
    code is.  That response is what the receive loop routes. *)
Theorem frame_classification b msg :
  decode b = (msg, None) ->
  classify b msg None =
    (if bool_decide (Message (Error msg) = "")
     then {| data := b; err := None |}
     else {| data := "";
             err := Some (Errorf (Code (Error msg)) (Message (Error msg))) |}) /\
  forall w,
    handle b w =
      deliver msg (classify b msg None)
        (if bool_decide (Method msg = "") then w
         else set_chans (broadcast (classify b msg None)
                           (subscribers (node w) (Method msg)) (chans w)) w).
Proof.
  intros Hd. split.
  - unfold classify. destruct (Message (Error msg)); done.
  - intros w. rewrite (handle_decoded b w msg None Hd). cbn zeta.
    destruct (Method msg); done.
Qed.

(** C8. For a decoded frame with a method, the response is offered, without
    blocking, to each subscriber of that method, once per registration: a
    channel with room takes it; a full channel is left as it is; no channel
    outside the list is touched; and what one subscriber's channel becomes
    does not depend on any other.  The loop then goes on to the pending
    request, as for any frame.  With no subscriber for the method and no
    request pending under the id, the frame changes nothing and the loop is
    back at its select. *)
Theorem push_broadcast b w msg :
  decode b = (msg, None) ->
  Method msg <> "" ->
  let r := classify b msg None in
  let subs := subscribers (node w) (Method msg) in
  let h := broadcast r subs (chans w) in
  handle b w = deliver msg r (set_chans h w) /\
  (forall c, h !! c =
     Nat.iter (length (filter (fun x => x = c) subs)) (offer r) <$> chans w !! c) /\
  (forall c ch, NoDup subs -> c ∈ subs -> chans w !! c = Some ch ->
     h !! c = Some (if has_room ch then enqueue ch r else ch)) /\
  (forall c ch, chans w !! c = Some ch -> has_room ch = false -> h !! c = Some ch) /\
  (forall c, c ∉ subs -> h !! c = chans w !! c) /\
  (subs = [] -> handlers (node w) !! ID msg = None -> handle b w = (w, Receiving)).
Proof.
  intros Hd Hm r subs h.
  assert (Hh : handle b w = deliver msg r (set_chans h w)).
  { rewrite (handle_decoded b w msg None Hd). cbn zeta.
    by rewrite bool_decide_true by (by apply nonempty_length). }
  split; [done|]. split; [intros c; apply broadcast_lookup|].
  split; [|split; [|split]].
  - intros c ch Hnd Hc Hch. subst h.
    rewrite broadcast_lookup, filter_eq_once, Hch by done. reflexivity.
  - intros c ch Hch Hfull. subst h.
    by rewrite broadcast_lookup, Hch; simpl; rewrite iter_offer_full.
  - intros c Hc. by apply broadcast_other.
  - intros Hs Hn. rewrite Hh. subst h. rewrite Hs.
    change (broadcast r [] (chans w)) with (chans w).
    rewrite set_chans_same. by apply deliver_nobody.
Qed.

End ListenProofs.

(** ** Correlation of requests and responses *)

Section CorrelationProofs.

Context {V : Type}.
Context `{!Unmarshal envelope, !Unmarshal envelope2, !Unmarshal V}.
Context `{!Marshal request_msg, !Framing}.

Implicit Types (t : @call V) (o : V) (cs : list (string * option (list string) * V)).

Lemma Inc_range i : 0 <= Inc i < uint32_modulus.
Proof. unfold Inc, uint32_modulus. apply Z.mod_pos_bound. lia. Qed.

Lemma Inc_plus s j : (Inc s + j) mod uint32_modulus = (s + (1 + j)) mod uint32_modulus.
Proof.
  unfold Inc. rewrite Zplus_mod_idemp_l. f_equal. lia.
Qed.

(** Fewer than 2^32 steps of the counter apart, two ids differ. *)
Lemma ids_differ s j1 j2 :
  j1 <> j2 -> - uint32_modulus < j1 - j2 < uint32_modulus ->
  (s + j1) mod uint32_modulus <> (s + j2) mod uint32_modulus.
Proof.
  unfold uint32_modulus. intros Hne Hd Heq.
  assert (Hm : (j1 - j2) mod 2 ^ 32 = 0).
  { replace (j1 - j2) with ((s + j1) - (s + j2)) by lia.
    rewrite Zminus_mod, Heq, Z.sub_diag. reflexivity. }
  apply Z.mod_divide in Hm as [q Hq]; lia.
Qed.

Lemma new_ref_fresh (h : gmap nat chan) : h !! new_ref h = None.
Proof. unfold new_ref. apply (not_elem_of_dom (D := gset nat)), is_fresh. Qed.

Lemma well_formed_ext w w' :
  node w' = node w -> chans w' = chans w -> well_formed w -> well_formed w'.
Proof.
  intros Hn Hc [H1 H2 H3 H4].
  split; rewrite ?Hn, ?Hc; assumption.
Qed.

Lemma registered_well_formed w : well_formed w -> well_formed (registered w).
Proof.
  intros [H1 H2 H3 H4].
  pose proof (new_ref_fresh (chans w)) as Hfresh.
  split; unfold registered; cbn.
  - apply Inc_range.
  - intros i c. destruct (decide (i = nextID (node w))) as [->|Hne].
    + rewrite lookup_insert_eq. intros [= <-]. by rewrite lookup_insert_eq.
    + rewrite lookup_insert_ne by done. intros Hi.
      rewrite lookup_insert_ne; [by eapply H2|].
      intros <-. apply H2 in Hi. congruence.
  - intros i j c.
    destruct (decide (i = nextID (node w))) as [->|Hi];
      destruct (decide (j = nextID (node w))) as [->|Hj];
      rewrite ?lookup_insert_eq, ?lookup_insert_ne by done; try done.
    + intros [= <-] Hc. apply H2 in Hc. congruence.
    + intros Hc [= <-]. apply H2 in Hc. congruence.
    + apply H3.
  - intros m subs c Hm Hc. destruct (H4 m subs c Hm Hc) as [[ch Hch] Hno].
    assert (c <> new_ref (chans w)) by congruence.
    split.
    + rewrite lookup_insert_ne by done. by eexists.
    + intros i. destruct (decide (i = nextID (node w))) as [->|Hi].
      * rewrite lookup_insert_eq. congruence.
      * rewrite lookup_insert_ne by done. apply Hno.
Qed.

Lemma issue_all_cons m p o cs w :
  issue_all ((m, p, o) :: cs) w =
    ((issue_all cs (issue None w (start m p o)).1).1,
     (issue None w (start m p o)).2 :: (issue_all cs (issue None w (start m p o)).1).2).
Proof.
  cbn [issue_all]. destruct (issue None w (start m p o)) as [w1 t].
  cbn [fst snd]. by destruct (issue_all cs w1) as [w2 ts].
Qed.

(** Calls made in turn take consecutive ids, modulo 2^32, and leave each its
    own entry in the map. *)
Lemma issue_all_spec cs w :
  (forall msg, exists b, marshal msg = inl b) ->
  well_formed w ->
  Z.of_nat (length cs) <= uint32_modulus ->
  let s := nextID (node w) in
  let w' := (issue_all cs w).1 in
  let ts := (issue_all cs w).2 in
  well_formed w' /\
  nextID (node w') = (s + Z.of_nat (length cs)) mod uint32_modulus /\
  grp (node w') = grp (node w) /\
  pushHandlers (node w') = pushHandlers (node w) /\
  length ts = length cs /\
  (forall i, (forall j, (j < length cs)%nat -> i <> (s + Z.of_nat j) mod uint32_modulus) ->
     handlers (node w') !! i = handlers (node w) !! i) /\
  (forall j t, ts !! j = Some t ->
     exists m p o c,
       cs !! j = Some (m, p, o) /\
       t = goto (AtSelect {| req_ID := (s + Z.of_nat j) mod uint32_modulus;
                             req_Method := m; req_Params := p |} c)
             (start m p o) /\
       handlers (node w') !! ((s + Z.of_nat j) mod uint32_modulus) = Some c).
Proof.
  intros Hmarshal. revert w.
  induction cs as [|[[m p] o] cs IH]; intros w Hwf Hlen s w' ts.
  - subst w' ts. simpl. split; [done|]. split.
    { rewrite Z.add_0_r. symmetry. apply Z.mod_small, Hwf. }
    do 4 (split; [done|]).
    intros j t Hj. by rewrite lookup_nil in Hj.
  - subst w' ts. rewrite issue_all_cons.
    destruct (Hmarshal (msg_of w m p)) as [b Hb].
    rewrite (issue_sent w m p o b Hb). cbn [fst snd].
    set (w1 := push_wire _ (registered w)).
    assert (Hwf1 : well_formed w1).
    { eapply (well_formed_ext (registered w)); [done..|].
      by apply registered_well_formed. }
    assert (Hs1 : nextID (node w1) = Inc s) by done.
    simpl length in Hlen.
    destruct (IH w1 Hwf1 ltac:(lia)) as (IH1 & IH0 & IH2 & IH3 & IH4 & IH5 & IH6).
    pose proof (wf_nextID _ Hwf) as Hs. fold s in Hs.
    assert (Hs0 : (s + Z.of_nat 0) mod uint32_modulus = s).
    { rewrite Z.add_0_r. by apply Z.mod_small. }
    split; [done|]. split.
    { rewrite IH0, Hs1, Inc_plus. cbn [length]. f_equal. lia. }
    split; [by rewrite IH2|]. split; [by rewrite IH3|].
    split; [simpl; by rewrite IH4|]. split.
    + intros i Hi. rewrite IH5.
      * subst w1. cbn. rewrite lookup_insert_ne; [done|].
        intros Heq. apply (Hi 0%nat); [simpl; lia|]. by rewrite Hs0.
      * intros j Hj. rewrite Hs1, Inc_plus.
        replace (1 + Z.of_nat j) with (Z.of_nat (S j)) by lia.
        apply Hi. simpl. lia.
    + intros [|j] t Ht.
      * simpl in Ht. injection Ht as <-.
        exists m, p, o, (new_ref (chans w)).
        split; [done|]. rewrite Hs0. split; [done|].
        rewrite IH5.
        -- subst w1. cbn. by rewrite lookup_insert_eq.
        -- intros j Hj. rewrite Hs1, Inc_plus.
           rewrite <- Hs0 at 1. apply ids_differ; lia.
      * simpl in Ht. destruct (IH6 j t Ht) as (m' & p' & o' & c & Hc1 & Hc2 & Hc3).
        exists m', p', o', c. rewrite Hs1, Inc_plus in Hc2, Hc3.
        replace (1 + Z.of_nat j) with (Z.of_nat (S j)) in Hc2, Hc3 by lia.
        done.
Qed.







End CorrelationProofs.

(** ** More about Connect, listen and request *)

Section NodeProofs.

Context {V : Type}.
Context `{!Unmarshal envelope, !Unmarshal envelope2, !Unmarshal V}.
Context `{!Marshal request_msg, !Framing}.

Implicit Types (t : @call V) (o : V) (s : @System V) (acts : list (@action V)).

(** A Connect that succeeded was made on a Node without transport; it gave
    the Node its transport and three workers and left the counter, the two
    maps and the timeout alone; and every Connect after it is turned down
    with ErrNodeConnected, dials nothing and changes neither the Node nor
    the slice it is given. *)
Theorem Connect_succeeds_once rnd dial n addrs rnd' dial' addrs' :
  c_err (Connect rnd dial n addrs) = None ->
  let r := Connect rnd dial n addrs in
  let r' := Connect rnd' dial' (c_node r) addrs' in
  (transport n = None /\ is_Some (transport (c_node r)) /\
   workers (grp (c_node r)) = (3 + workers (grp n))%nat /\
   closed (grp (c_node r)) = closed (grp n) /\
   nextID (c_node r) = nextID n /\ handlers (c_node r) = handlers n /\
   pushHandlers (c_node r) = pushHandlers n /\ timeout (c_node r) = timeout n) /\
  (c_err r' = Some ErrNodeConnected /\ c_node r' = c_node r /\
   c_addrs r' = addrs' /\ c_dialled r' = []).
Proof.
  intros Hok r r'.
  assert (Hs : transport n = None /\
               exists tr, c_node r = grp_Add (grp_Add (grp_Add (set_transport (Some tr) n)))).
  { subst r r'. unfold Connect in *. destruct (transport n); [discriminate|].
    destruct (try_addrs dial _) as [tried [tr|e|]]; [|discriminate..].
    split; [done|]. by exists tr. }
  destruct Hs as [Hn [tr Ht]]. subst r' r. rewrite !Ht.
  split; [cbn; by eauto 10|]. unfold Connect. cbn. done.
Qed.

(** The error relay does nothing but log: it leaves the Node, the channels
    and the wire as they are, logs the errors it takes in their order, and
    returns only when the group has been stopped. *)
Theorem handleErrors_only_logs cs w :
  let w' := (handleErrors cs w).1 in
  node w' = node w /\ chans w' = chans w /\ wire w' = wire w /\
  (exists taken, taken `prefix_of` cs /\ logged w' = logged w ++ relayed taken) /\
  ((handleErrors cs w).2 = true -> closed (grp (node w)) = true) /\
  (closed (grp (node w)) = false -> logged w' = logged w ++ relayed cs).
Proof.
  revert w. induction cs as [|c cs IH]; intros w; cbn zeta.
  - cbn. do 3 (split; [done|]). split; [|split; [done|by rewrite app_nil_r]].
    exists []. split; [done|]. by rewrite app_nil_r.
  - destruct (IH w) as (H1 & H2 & H3 & (tk & Hp & Hl) & H5 & H6).
    destruct c as [|e]; cbn [handleErrors handleErrors_step].
    + destruct (closed (grp (node w))) eqn:Hc.
      * cbn. do 3 (split; [done|]). split; [|done].
        exists []. split; [apply prefix_nil|]. by rewrite app_nil_r.
      * do 3 (split; [done|]). split; [|split; [done|]].
        -- exists (RelayStop :: tk). split; [by apply prefix_cons|]. done.
        -- intros _. by apply H6.
    + clear H1 H2 H3 tk Hp Hl H5 H6.
      destruct (IH (Node_err (Err e) w)) as (H1 & H2 & H3 & (tk & Hp & Hl) & H5 & H6).
      do 3 (split; [done|]). split; [|split; [done|]].
      * exists (RelayError e :: tk). split; [by apply prefix_cons|].
        rewrite Hl. cbn. by rewrite <- app_assoc.
      * intros Hc. rewrite H6 by done. cbn. by rewrite <- app_assoc.
Qed.

Lemma make_chan_has_room : has_room (make_chan 1) = true.
Proof. unfold has_room. apply bool_decide_eq_true. cbn. lia. Qed.

Lemma handle_nobody b w msg e :
  decode b = (msg, e) ->
  audience (node w) msg = [] ->
  handlers (node w) !! ID msg = None ->
  handle b w = (noted e w, Receiving).
Proof.
  intros Hd Ha Hn. rewrite (handle_decoded b w msg e Hd). cbn zeta.
  fold (noted e w).
  assert (Hnode : node (noted e w) = node w) by (by destruct e).
  unfold audience in Ha. rewrite Hnode.
  destruct (bool_decide _).
  - rewrite Ha. change (broadcast _ [] (chans (noted e w))) with (chans (noted e w)).
    rewrite set_chans_same. apply deliver_nobody. by rewrite Hnode.
  - apply deliver_nobody. by rewrite Hnode.
Qed.

(** A response that comes after its request has timed out: the request has
    returned ErrTimeout and taken its entry out of the map, and the frame,
    finding no request under its id, changes nothing (a frame that could not
    be decoded is logged); the receive loop is back at its select. *)
Theorem late_response_dropped w t msg c elapsed b m e :
  pc t = AtSelect msg c ->
  timeout (node w) <= elapsed ->
  decode b = (m, e) ->
  ID m = req_ID msg ->
  audience (node w) m = [] ->
  let w1 := (resolve (SelTimeout elapsed) w t).1 in
  pc (resolve (SelTimeout elapsed) w t).2 = Returned (Some ErrTimeout) /\
  handlers (node w1) !! req_ID msg = None /\
  handle b w1 = (noted e w1, Receiving).
Proof.
  intros Hpc Ht Hd Hid Ha w1. subst w1.
  rewrite (resolve_timeout w t msg c elapsed Hpc Ht). cbn [fst snd].
  split; [done|]. split; [cbn; by rewrite lookup_delete_eq|].
  apply (handle_nobody b _ m e Hd).
  - exact Ha.
  - cbn. by rewrite Hid, lookup_delete_eq.
Qed.

(** A response that comes when the timer of its request has fired and the
    request has not yet deleted its entry: the response goes into the
    request's channel, which has the room, so the receive loop is not held
    up; the request returns ErrTimeout all the same and takes its entry
    out; the response is never read. *)
Theorem response_racing_timeout w t msg c elapsed b m e i :
  pc t = AtSelect msg c ->
  timeout (node w) <= elapsed ->
  handlers (node w) !! req_ID msg = Some c ->
  chans w !! c = Some (make_chan 1) ->
  decode b = (m, e) ->
  ID m = req_ID msg ->
  c ∉ audience (node w) m ->
  let fired := request_step {| send_err := None; sel := SelTimeout elapsed |} w t in
  let arrived := handle b fired.1 in
  let returned := request_step i arrived.1 fired.2 in
  arrived.2 = Receiving /\
  chans arrived.1 !! c = Some {| cap := 1; buf := [classify b m e] |} /\
  pc returned.2 = Returned (Some ErrTimeout) /\
  handlers (node returned.1) !! req_ID msg = None /\
  chans returned.1 !! c = Some {| cap := 1; buf := [classify b m e] |}.
Proof.
  intros Hpc Ht Hh Hc Hd Hid Ha fired arrived returned.
  assert (Hf : fired = (w, goto (AtDelete msg {| data := ""; err := Some (Err ErrTimeout) |}) t)).
  { subst fired. unfold request_step. rewrite Hpc. cbn.
    by rewrite bool_decide_true by done. }
  assert (Harr : arrived.2 = Receiving /\
                 node arrived.1 = node w /\
                 chans arrived.1 !! c = Some {| cap := 1; buf := [classify b m e] |}).
  { subst arrived. rewrite Hf. cbn [fst].
    rewrite (handle_decoded b w m e Hd). cbn zeta. fold (noted e w).
    assert (Hnode : node (noted e w) = node w) by (by destruct e).
    assert (Hch : chans (noted e w) = chans w) by (by destruct e).
    set (wb := if bool_decide _ then _ else _).
    assert (Hwb : node wb = node w /\ chans wb !! c = Some (make_chan 1)).
    { subst wb. unfold audience in Ha. rewrite Hnode in *.
      destruct (bool_decide _); cbn.
      - split; [done|]. by rewrite broadcast_other, Hch.
      - by rewrite Hnode, Hch. }
    destruct Hwb as [Hwn Hwc].
    unfold deliver. rewrite Hwn, Hid, Hh. unfold send.
    rewrite Hwc, make_chan_has_room. cbn.
    by rewrite lookup_insert_eq. }
  destruct Harr as (Ha1 & Ha2 & Ha3).
  split; [done|]. split; [done|].
  subst returned. rewrite Hf. cbn [snd]. unfold request_step. cbn.
  split; [done|]. split; [by rewrite lookup_delete_eq|done].
Qed.

Lemma exec_blocked a s c r ch :
  loop_turn a ->
  recv_loop s = Delivering c r ->
  chans (world s) !! c = Some ch ->
  has_room ch = false ->
  recv_loop (exec a s) = Delivering c r /\
  chans (world (exec a s)) = chans (world s) /\
  handlers (node (world (exec a s))) = handlers (node (world s)) /\
  calls (exec a s) = calls s.
Proof.
  intros Ha Hl Hc Hr. destruct a as [m p o|k i|b| |]; try done; cbn.
  - by rewrite Hl.
  - rewrite Hl. cbn. unfold send. by rewrite Hc, Hr.
Qed.

(** A second response for a request that has not yet read the first.  The
    request's channel has one slot; the receive loop finds it full and
    stays in its send.  There it takes no further frame and does not see
    the shutdown either: whatever frames arrive and whether or not the
    Node is shut down, it remains in that send, with the channel as it was,
    until a call of request reads the channel. *)
Theorem second_response_blocks_loop s b m e c ch acts :
  recv_loop s = Receiving ->
  closed (grp (node (world s))) = false ->
  decode b = (m, e) ->
  handlers (node (world s)) !! ID m = Some c ->
  c ∉ audience (node (world s)) m ->
  chans (world s) !! c = Some ch ->
  has_room ch = false ->
  Forall loop_turn acts ->
  let s' := run (Frame b :: acts) s in
  recv_loop s' = Delivering c (classify b m e) /\
  chans (world s') !! c = Some ch /\
  handlers (node (world s')) = handlers (node (world s)) /\
  calls s' = calls s.
Proof.
  intros Hl Hopen Hd Hh Ha Hc Hfull Hacts s'. subst s'.
  cbn [run foldl]. fold (run acts (exec (Frame b) s)).
  assert (H1 : recv_loop (exec (Frame b) s) = Delivering c (classify b m e) /\
               chans (world (exec (Frame b) s)) !! c = Some ch /\
               handlers (node (world (exec (Frame b) s))) = handlers (node (world s)) /\
               calls (exec (Frame b) s) = calls s).
  { cbn. rewrite Hl. cbn. rewrite Hopen.
    rewrite (handle_decoded b (world s) m e Hd). cbn zeta. fold (noted e (world s)).
    assert (Hnode : node (noted e (world s)) = node (world s)) by (by destruct e).
    assert (Hch : chans (noted e (world s)) = chans (world s)) by (by destruct e).
    set (wb := if bool_decide _ then _ else _).
    assert (Hwb : node wb = node (world s) /\ chans wb !! c = Some ch).
    { subst wb. unfold audience in Ha. rewrite Hnode in *.
      destruct (bool_decide _); cbn.
      - split; [done|]. by rewrite broadcast_other, Hch.
      - by rewrite Hnode, Hch. }
    destruct Hwb as [Hwn Hwc].
    unfold deliver. rewrite Hwn, Hh. unfold send. rewrite Hwc, Hfull. cbn.
    by rewrite Hwn. }
  destruct H1 as (Hl1 & Hc1 & Hh1 & Hk1).
  revert Hl1 Hc1 Hh1 Hk1. generalize (exec (Frame b) s). clear Hl Hopen Hh Ha Hc.
  induction Hacts as [|a acts Ha _ IH]; intros s1 Hl1 Hc1 Hh1 Hk1.
  - done.
  - cbn [run foldl]. fold (run acts (exec a s1)).
    destruct (exec_blocked a s1 c _ ch Ha Hl1 Hc1 Hfull) as (E1 & E2 & E3 & E4).
    apply IH; [done|by rewrite E2|by rewrite E3|by rewrite E4].
Qed.

(** The loop held in its send goes on when the request has read its
    channel: the response that was waiting goes into the freed slot and
    the loop is back at its select. *)
Theorem blocked_loop_released s k t msg c r :
  recv_loop s = Delivering c r ->
  calls s !! k = Some t ->
  pc t = AtSelect msg c ->
  is_Some (recv (chans (world s)) c) ->
  (forall ch, chans (world s) !! c = Some ch -> length (buf ch) <= cap ch)%nat ->
  let s' := run [Step k {| send_err := None; sel := SelResponse |}; Poll] s in
  recv_loop s' = Receiving /\
  exists ch ch', chans (world s) !! c = Some ch /\
    chans (world s') !! c = Some ch' /\
    buf ch' = tail (buf ch) ++ [r].
Proof.
  intros Hl Hk Hpc [[r0 h0] Hr] Hb s'. subst s'.
  unfold recv in Hr. destruct (chans (world s) !! c) as [ch|] eqn:Hc; [|done].
  specialize (Hb ch eq_refl).
  destruct (buf ch) as [|x rest] eqn:Hbuf; [done|]. injection Hr as <- <-.
  set (h := <[c := {| cap := cap ch; buf := rest |}]> (chans (world s))).
  assert (H1 : exec (Step k {| send_err := None; sel := SelResponse |}) s =
               {| world := set_chans h (world s);
                  calls := <[k := goto (AtDelete msg x) t]> (calls s);
                  recv_loop := Delivering c r |}).
  { cbn. rewrite Hk. unfold request_step. rewrite Hpc. cbn. unfold recv.
    rewrite Hc, Hbuf. by rewrite Hl. }
  assert (Hs : send h c r = Some (<[c := {| cap := cap ch; buf := rest ++ [r] |}]> h)).
  { unfold send. subst h. rewrite lookup_insert_eq. unfold has_room.
    rewrite bool_decide_true by (cbn in *; lia). done. }
  cbn [run foldl]. rewrite H1. cbn. rewrite Hs. cbn.
  split; [done|]. exists ch, {| cap := cap ch; buf := rest ++ [r] |}.
  split; [done|]. rewrite lookup_insert_eq. split; [done|]. by rewrite Hbuf.
Qed.

Lemma increments_insert (ts : list (@call V)) k t t' :
  ts !! k = Some t ->
  (increments (<[k := t']> ts) + incremented t = increments ts + incremented t')%nat.
Proof.
  unfold increments. revert k. induction ts as [|x ts IH]; intros [|k] Hk; simplify_eq/=.
  - lia.
  - specialize (IH k Hk). lia.
Qed.

Ltac counter_case :=
  split; [lia|];
  first [ rewrite decide_True by done; done
        | rewrite decide_False by lia; done ].

Lemma request_step_counter i w t :
  let r := request_step i w t in
  (incremented t <= incremented r.2)%nat /\
  nextID (node r.1) =
    if decide (incremented r.2 = incremented t) then nextID (node w)
    else Inc (nextID (node w)).
Proof.
  unfold request_step, incremented.
  destruct (pc t) as [|msg|msg|msg b|msg b c|msg c|msg r|e] eqn:Hpc; cbn.
  - counter_case.
  - counter_case.
  - destruct (marshal msg); cbn; counter_case.
  - counter_case.
  - destruct (send_err i); cbn; counter_case.
  - destruct (sel i) as [| |el]; cbn.
    + destruct (closed _); cbn; rewrite ?Hpc; counter_case.
    + destruct (recv _ c) as [[r h]|]; cbn; rewrite ?Hpc; counter_case.
    + destruct (bool_decide _); cbn; rewrite ?Hpc; counter_case.
  - unfold finish. destruct (err r); cbn; [counter_case|].
    destruct (unmarshal _ _); cbn; counter_case.
  - rewrite Hpc. counter_case.
Qed.

Lemma listen_step_nextID f w l :
  nextID (node (listen_step f w l).1) = nextID (node w).
Proof.
  assert (Hd : forall msg r w0, nextID (node (deliver msg r w0).1) = nextID (node w0)).
  { intros msg r w0. unfold deliver. destruct (handlers _ !! _); [|done].
    by destruct (send _ _ _). }
  destruct l as [|c r|]; cbn.
  - destruct (closed _); [done|]. destruct f as [b|]; [|done].
    unfold handle. destruct (decode b) as [msg e]. rewrite Hd.
    destruct (bool_decide _); by destruct e.
  - by destruct (send _ _ _).
  - done.
Qed.

Lemma exec_counter a s :
  (increments (calls s) <= increments (calls (exec a s)))%nat /\
  nextID (node (world (exec a s))) =
    if decide (increments (calls (exec a s)) = increments (calls s))
    then nextID (node (world s))
    else Inc (nextID (node (world s))).
Proof.
  unfold increments. destruct a as [m p o|k i|b| |]; unfold exec; cbv beta iota.
  - cbn. rewrite fmap_app, sum_list_with_app. cbn.
    split; [lia|]. by rewrite decide_True by lia.
  - destruct (calls s !! k) as [t|] eqn:Hk; [|split; [lia|]; by rewrite decide_True].
    destruct (request_step_counter i (world s) t) as [Hle Hn].
    destruct (request_step i (world s) t) as [w t'] eqn:Hs. cbn in *.
    pose proof (increments_insert (calls s) k t t' Hk) as Hi.
    unfold increments in *. split; [lia|]. rewrite Hn.
    destruct (decide (incremented t' = incremented t));
      [rewrite decide_True by lia | rewrite decide_False by lia]; done.
  - destruct (recv_loop s) eqn:Hl.
    + pose proof (listen_step_nextID (Some b) (world s) Receiving) as Hn.
      destruct (listen_step (Some b) (world s) Receiving) as [w l]. cbn in *.
      split; [lia|]. by rewrite decide_True.
    + split; [lia|]. by rewrite decide_True.
    + split; [lia|]. by rewrite decide_True.
  - pose proof (listen_step_nextID None (world s) (recv_loop s)) as Hn.
    destruct (listen_step None (world s) (recv_loop s)) as [w l]. cbn in *.
    split; [lia|]. by rewrite decide_True.
  - cbn. split; [lia|]. by rewrite decide_True.
Qed.

Lemma exec_increment_one a s :
  (increments (calls (exec a s)) <= S (increments (calls s)))%nat.
Proof.
  unfold increments. destruct a as [m p o|k i|b| |]; unfold exec; cbv beta iota.
  - cbn. rewrite fmap_app, sum_list_with_app. cbn. lia.
  - destruct (calls s !! k) as [t|] eqn:Hk; [|lia].
    destruct (request_step i (world s) t) as [w t'] eqn:Hs. cbn.
    pose proof (increments_insert (calls s) k t t' Hk) as Hi.
    assert (incremented t' <= 1)%nat by (unfold incremented; destruct (pc t'); lia).
    unfold increments in *. lia.
  - destruct (recv_loop s); try lia.
    destruct (listen_step (Some b) (world s) Receiving) as [w l]. cbn. lia.
  - destruct (listen_step None (world s) (recv_loop s)) as [w l]. cbn. lia.
  - cbn. lia.
Qed.

(** Whatever the calls of request, the receive loop and the shutdown do, and
    in whatever order, the counter stands at its first value plus the
    number of calls that have executed their Inc since, modulo 2^32: no
    increment is lost and none is made twice. *)
Theorem counter_counts_increments acts s :
  0 <= nextID (node (world s)) < uint32_modulus ->
  let s' := run acts s in
  (increments (calls s) <= increments (calls s'))%nat /\
  nextID (node (world s')) =
    (nextID (node (world s))
     + Z.of_nat (increments (calls s') - increments (calls s))) mod uint32_modulus.
Proof.
  revert s. induction acts as [|a acts IH]; intros s Hr s'; subst s'.
  - cbn. split; [lia|]. rewrite Nat.sub_diag, Z.add_0_r. symmetry.
    by apply Z.mod_small.
  - cbn [run foldl]. fold (run acts (exec a s)).
    destruct (exec_counter a s) as [Hle Hn].
    pose proof (exec_increment_one a s) as Hone.
    assert (Hr' : 0 <= nextID (node (world (exec a s))) < uint32_modulus).
    { rewrite Hn. destruct (decide _); [done|]. apply Z.mod_pos_bound.
      by unfold uint32_modulus. }
    destruct (IH (exec a s) Hr') as [IHle IHn].
    split; [lia|]. rewrite IHn, Hn.
    destruct (decide _) as [Heq|Hne].
    + by rewrite Heq.
    + unfold Inc. rewrite Zplus_mod_idemp_l. f_equal. lia.
Qed.

End NodeProofs.

(** ** HTTPStore *)

Section HTTPStoreProofs.
Import Blobs HTTP.
Context {T : Type} `{!BlobTrace T} `{!URLs}.

Lemma make_length n : String.length (make n) = n.
Proof. induction n as [|n IH]; cbn; [done | by rewrite IH]. Qed.

Lemma substring_whole s : substring 0 (String.length s) s = s.
Proof. induction s as [|a s IH]; cbn; [done | by rewrite IH]. Qed.

Lemma substring_none n s : substring n 0 s = "".
Proof.
  revert n. induction s as [|a s IH]; intros [|n]; cbn; auto.
Qed.

Lemma append_empty s : (s ++ "")%string = s.
Proof.
  induction s as [|a s IH]; [done|].
  change (String a (s ++ "")%string = String a s). by rewrite IH.
Qed.

Lemma empty_append s : ("" ++ s)%string = s.
Proof. reflexivity. Qed.

(** Copying the whole of a buffer into a slice made for its length gives
    the contents of the buffer. *)
Lemma copy_whole s : copy (make (Z.to_nat (len s))) s = s.
Proof.
  unfold copy, len. rewrite Nat2Z.id, make_length, Nat.min_id, Nat.sub_diag.
  by rewrite substring_whole, substring_none, append_empty.
Qed.

Lemma collect_clean mask pool :
  Forall (eq "") pool -> Forall (eq "") (collect mask pool).
Proof.
  intros Hp. revert mask.
  induction Hp as [|b pool Hb Hp IH]; intros [|[] mask]; cbn; auto.
Qed.

Lemma pool_Get_clean pick pool :
  Forall (eq "") pool ->
  (pool_Get pick pool).1 = "" /\ Forall (eq "") (pool_Get pick pool).2.
Proof.
  intros Hp. unfold pool_Get. destruct pick as [i|]; [|done].
  destruct (pool !! i) as [b|] eqn:Hi; [|done]. cbn. split.
  - symmetry. by eapply Forall_lookup_1 in Hp.
  - by apply Forall_delete.
Qed.

Lemma getBuffer_clean r g :
  pool_clean g ->
  (getBuffer r g).1 = "" /\ pool_clean (getBuffer r g).2 /\
  MtrInBytesHTTP (getBuffer r g).2 = MtrInBytesHTTP g.
Proof.
  intros Hg. unfold getBuffer.
  destruct (pool_Get_clean (pick r) (collect (collected r) (buffers g)))
    as [Hb Hp]; [by apply collect_clean|].
  destruct (pool_Get _ _) as [b pool]. by cbn in *.
Qed.

Lemma putBuffer_clean buf g : pool_clean g -> pool_clean (putBuffer buf g).
Proof.
  intros Hg. unfold pool_clean, putBuffer. cbn. apply Forall_app. split; [done|].
  by repeat constructor.
Qed.

(** One call of [Get] on a pool of reset buffers. *)
Lemma Get_on_clean_pool n r g hash :
  pool_clean g ->
  let g' := (Get n r g hash).1 in
  let out := (Get n r g hash).2 in
  pool_clean g' /\
  match answer_of n (r, hash) with
  | Some res =>
      if served (T := T) res then
        blob out = Some (content (Body res)) /\ err out = None /\
        MtrInBytesHTTP g' = MtrInBytesHTTP g ++ [len (content (Body res))]
      else
        blob out = None /\ is_Some (err out) /\ MtrInBytesHTTP g' = MtrInBytesHTTP g
  | None =>
      blob out = None /\ is_Some (err out) /\ g' = g
  end.
Proof.
  intros Hg. unfold Get, answer_of. cbn [fst snd].
  destruct (NewRequest "GET" _) as [req|e]; [|by cbn; eauto].
  destruct (Do r req) as [res|e]; [|by cbn; eauto].
  destruct (getBuffer_clean r g Hg) as (Hb & Hp & Hm).
  destruct (getBuffer r g) as [tmp g1]. cbn in Hb, Hp, Hm. subst tmp.
  unfold served, via_ok.
  destruct (Via res =? "")%string; cbn [orb].
  - destruct (StatusCode res =? StatusNotFound)%Z eqn:H404.
    { apply Z.eqb_eq in H404. rewrite H404. cbn. split; [by apply putBuffer_clean|]. eauto. }
    destruct (StatusCode res =? StatusOK)%Z; cbn [andb].
    + unfold Copy. rewrite empty_append. destruct (failure (Body res)) as [e|]; cbn.
      * split; [by apply putBuffer_clean|]. eauto.
      * split; [by apply putBuffer_clean|]. rewrite copy_whole, Hm. done.
    + cbn. split; [by apply putBuffer_clean|]. eauto.
  - destruct (Deserialize (Via res)) as [t|e]; cbn [andb].
    2:{ cbn. split; [by apply putBuffer_clean|]. eauto. }
    destruct (StatusCode res =? StatusNotFound)%Z eqn:H404.
    { apply Z.eqb_eq in H404. rewrite H404. cbn. split; [by apply putBuffer_clean|]. eauto. }
    destruct (StatusCode res =? StatusOK)%Z; cbn [andb].
    + unfold Copy. rewrite empty_append. destruct (failure (Body res)) as [e|]; cbn.
      * split; [by apply putBuffer_clean|]. eauto.
      * split; [by apply putBuffer_clean|]. rewrite copy_whole, Hm. done.
    + cbn. split; [by apply putBuffer_clean|]. eauto.
Qed.

Lemma Gets_cons n r hash rest g :
  Gets n ((r, hash) :: rest) g =
    ((Gets n rest (Get n r g hash).1).1,
     (Get n r g hash).2 :: (Gets n rest (Get n r g hash).1).2).
Proof.
  cbn [Gets]. destruct (Get n r g hash) as [g1 out]. cbn [fst snd].
  by destruct (Gets n rest g1).
Qed.

(** Any number of calls of [Get], one after the other, starting with a pool
    that holds reset buffers only (as the empty pool of the start does):
    whatever buffers the pool hands out or lets go of, every call that is
    answered with status 200, a readable body and a usable [Via] header
    returns exactly the bytes of that body and no error; every other call
    returns a nil blob and an error; the pool holds reset buffers only
    afterwards; and what was added to the metric is the length of each blob
    returned, in the order of the calls. *)
Theorem Gets_return_bodies n calls g :
  pool_clean g ->
  let g' := (Gets n calls g).1 in
  let outs := (Gets n calls g).2 in
  pool_clean g' /\
  Forall2 (fun c out =>
             match answer_of n c with
             | Some res =>
                 if served (T := T) res
                 then blob out = Some (content (Body res)) /\ err out = None
                 else blob out = None /\ is_Some (err out)
             | None => blob out = None /\ is_Some (err out)
             end) calls outs /\
  MtrInBytesHTTP g' = MtrInBytesHTTP g ++ omap (fun out => len <$> blob out) outs.
Proof.
  revert g. induction calls as [|[r hash] rest IH]; intros g Hg.
  - cbn. split; [done|]. split; [constructor|]. by rewrite app_nil_r.
  - cbn zeta. rewrite Gets_cons. cbn [fst snd].
    pose proof (Get_on_clean_pool n r g hash Hg) as [Hc Hout]. cbn zeta in Hc, Hout.
    destruct (IH _ Hc) as (Hc' & Hall & Hm). cbn zeta in Hc', Hall, Hm.
    split; [done|]. split.
    + constructor; [|done].
      destruct (answer_of n (r, hash)) as [res|]; [|tauto].
      destruct (served res); tauto.
    + rewrite Hm.
      assert (MtrInBytesHTTP (Get n r g hash).1 =
              MtrInBytesHTTP g ++ omap (fun out => len <$> blob out) [(Get n r g hash).2])
        as ->.
      { destruct (answer_of n (r, hash)) as [res|].
        - destruct (served res); destruct Hout as (Hb & _ & Hm'); cbn; rewrite Hb, Hm'; cbn;
            [done | by rewrite app_nil_r].
        - destruct Hout as (Hb & _ & Hm'). cbn. rewrite Hb, Hm'. cbn. by rewrite app_nil_r. }
      rewrite <- app_assoc. f_equal.
      change ((Get n r g hash).2 :: (Gets n rest (Get n r g hash).1).2)
        with ([(Get n r g hash).2] ++ (Gets n rest (Get n r g hash).1).2).
      by rewrite omap_app.
Qed.

End HTTPStoreProofs.

(** ** DiskStore *)

Section DiskStoreProofs.
Import Blobs Disk.
Context {T : Type} `{!BlobTrace T} `{!Paths} `{!Digest}.
Implicit Types (f : faults) (k : Disk) (hash : string) (b : bytes).

(** The store once [initOnce] has succeeded. *)
Lemma initOnce_cases f k :
  (ready f k /\
   initOnce f k = (set_store (set_initialized true (store k)) k, None)) \/
  (initialized (store k) = false /\
   exists e, (mkdir_blobs f = Some e \/ (mkdir_blobs f = None /\ mkdir_tmp f = Some e)) /\
             initOnce f k = (k, Some (Err (Lib e)))).
Proof.
  unfold initOnce, ready, ensureDirExists, MkdirAll.
  destruct k as [[d p i c] fs lg]. cbn.
  destruct i; [left; auto|].
  destruct (mkdir_blobs f) as [e|]; cbn; [right; eauto|].
  destruct (mkdir_tmp f) as [e|]; cbn; [right; eauto 6|].
  left; auto.
Qed.

Lemma ready_not_failed f k e :
  ready f k -> initialized (store k) = false ->
  ~ (mkdir_blobs f = Some e \/ (mkdir_blobs f = None /\ mkdir_tmp f = Some e)).
Proof. unfold ready. intros [?|[? ?]] ? [?|[? ?]]; congruence. Qed.

Lemma initOnce_again f k :
  initialized (store k) = true -> initOnce f k = (k, None).
Proof. unfold initOnce. by intros ->. Qed.

(** [Has] once the store is initialized. *)
Lemma Has_initialized f k hash :
  initialized (store k) = true ->
  Has f k hash =
    (k, match Stat (stat f) (files k) (path (store k) hash) with
        | Some e => if IsNotExist e then (false, None) else (false, Some (Err (Lib e)))
        | None => (true, None)
        end).
Proof.
  intros Hi. unfold Has. rewrite initOnce_again by done.
  destruct (Stat _ _ _) as [e|]; [|done]. by destruct (IsNotExist e).
Qed.

(** [Delete] once the store is initialized. *)
Lemma Delete_initialized f k hash :
  initialized (store k) = true ->
  Delete f k hash =
    match Stat (stat f) (files k) (path (store k) hash) with
    | Some e => if IsNotExist e then (k, None) else (k, Some (Err (Lib e)))
    | None =>
        (set_files (Remove (remove f) (files k) (path (store k) hash)).1 k,
         (fun e => Err (Lib e)) <$> (Remove (remove f) (files k) (path (store k) hash)).2)
    end.
Proof.
  intros Hi. unfold Delete. rewrite initOnce_again by done.
  rewrite Has_initialized by done.
  destruct (Stat _ _ _) as [e|]; [by destruct (IsNotExist e)|].
  cbn. by destruct (Remove _ _ _).
Qed.

(** [Delete] changes no file but the one of its hash. *)
Lemma Remove_other fault fs p q :
  q <> p -> (Remove fault fs p).1 !! q = fs !! q.
Proof.
  intros Hq. unfold Remove. destruct fault; [done|].
  destruct (fs !! p); [|done]. cbn. by rewrite lookup_delete_ne.
Qed.

Lemma Remove_at fault fs p :
  (Remove fault fs p).1 !! p = fs !! p \/
  (fault = None /\ is_Some (fs !! p) /\ (Remove fault fs p) = (base.delete p fs, None)).
Proof.
  unfold Remove. destruct fault; [by left|].
  destruct (fs !! p) eqn:E; [|by left]. right. eauto.
Qed.

#[local] Abbreviation init k := (set_store (set_initialized true (store k)) k).



Lemma Get_ready f k hash : ready f k -> Get f k hash = Get f (init k) hash.
Proof.
  intros Hr. destruct (initOnce_cases f k) as [[_ Hi]|(Hn & e & He & _)].
  - unfold Get. rewrite Hi. by rewrite initOnce_again.
  - by destruct (ready_not_failed f k e Hr Hn).
Qed.

Lemma Get_failed f k hash e :
  initOnce f k = (k, Some e) ->
  Get f k hash =
    (k, {| blob := None; trace := NewBlobTrace (took f) (Name (store k)); err := Some e |}).
Proof. intros Hi. unfold Get. by rewrite Hi. Qed.

(** [Get] returns a blob exactly when the store can be initialized, the
    file of the hash can be read, and either its content has the hash as
    its SHA-384 or thirty checks or more are counted as running, in which
    case the content is returned unchecked.  The blob is the content of the
    file, and it comes with a nil error; without a blob there is an
    error. *)
Theorem Get_verifies_unless_busy f k hash b :
  let out := (Get f k hash).2 in
  (blob out = Some b <->
     ready f k /\ read f = None /\ files k !! path (store k) hash = Some b /\
     (concurrentChecks (store k) < maxConcurrentChecks -> sha384_hex b = hash)) /\
  (err out = None <-> is_Some (blob out)).
Proof.
  cbn zeta.
  destruct (initOnce_cases f k) as [[Hr _]|(Hn & e & He & Hi)].
  2:{ rewrite (Get_failed _ _ _ _ Hi). cbn. split; split.
      - done.
      - intros [Hr _]. by destruct (ready_not_failed f k e Hr Hn).
      - done.
      - by intros [? ?]. }
  rewrite (Get_ready _ _ _ Hr).
  unfold Get. rewrite initOnce_again by done.
  change (path (store (init k)) hash) with (path (store k) hash).
  change (files (init k)) with (files k).
  change (concurrentChecks (store (init k))) with (concurrentChecks (store k)).
  unfold ReadFile.
  destruct (read f) as [e|].
  { destruct (IsNotExist e); cbn; (split; split; [done | | done |]);
      try (by intros [? ?]); by intros (_ & ? & _). }
  destruct (files k !! path (store k) hash) as [c|] eqn:Hc.
  2:{ cbn. (split; split; [done | | done |]); try (by intros [? ?]).
      by intros (_ & _ & ? & _). }
  destruct (concurrentChecks (store k) <? maxConcurrentChecks)%Z eqn:Hlt.
  - apply Z.ltb_lt in Hlt.
    destruct (String.eqb hash (sha384_hex c)) eqn:Hh; cbn [negb].
    + apply String.eqb_eq in Hh. cbn. split; split; eauto.
      * intros [= <-]. eauto.
      * by intros (_ & _ & [= <-] & _).
    + apply String.eqb_neq in Hh.
      destruct (Delete f _ hash) as [k2 [e|]]; cbn;
        (split; split; [done | | done |]); try (by intros [? ?]);
        intros (_ & _ & [= <-] & Hd); by destruct Hh; rewrite Hd.
  - apply Z.ltb_ge in Hlt. cbn. split; split; eauto.
    + intros [= <-]. split; [done|]. split; [done|]. split; [done|]. intros ?; lia.
    + by intros (_ & _ & [= <-] & _).
Qed.

(** [Get] leaves the directory, the prefix length and the count of running
    checks of the store as they were, never takes back the initialization,
    and changes no file, with one exception: it removes the file of the
    hash it was asked for, and that only when it has read the file, fewer
    than thirty checks were counted as running, and the content does not
    have the hash as its SHA-384. *)
Theorem Get_spares_other_blobs f k hash :
  let k' := (Get f k hash).1 in
  let p := path (store k) hash in
  blobDir (store k') = blobDir (store k) /\
  prefixLength (store k') = prefixLength (store k) /\
  concurrentChecks (store k') = concurrentChecks (store k) /\
  (initialized (store k) = true -> initialized (store k') = true) /\
  (forall q, q <> p -> files k' !! q = files k !! q) /\
  (files k' !! p = files k !! p \/
   (files k' !! p = None /\
    exists c, files k !! p = Some c /\ sha384_hex c <> hash /\
              concurrentChecks (store k) < maxConcurrentChecks)).
Proof.
  cbn zeta.
  destruct (initOnce_cases f k) as [[Hr _]|(Hn & e & He & Hi)].
  2:{ rewrite (Get_failed _ _ _ _ Hi). cbn. auto 10. }
  rewrite (Get_ready _ _ _ Hr).
  unfold Get. rewrite initOnce_again by done.
  change (path (store (init k)) hash) with (path (store k) hash).
  change (files (init k)) with (files k).
  change (concurrentChecks (store (init k))) with (concurrentChecks (store k)).
  unfold ReadFile.
  destruct (read f) as [e|].
  { destruct (IsNotExist e); cbn; auto 10. }
  destruct (files k !! path (store k) hash) as [c|] eqn:Hc; [|cbn; auto 10].
  destruct (concurrentChecks (store k) <? maxConcurrentChecks)%Z eqn:Hlt; [|cbn; auto 10].
  apply Z.ltb_lt in Hlt.
  destruct (String.eqb hash (sha384_hex c)) eqn:Hh; cbn [negb].
  { cbn. repeat split; auto; lia. }
  apply String.eqb_neq in Hh.
  rewrite Delete_initialized by done.
  cbn [store files set_store Errorf checks_Add set_initialized blobDir prefixLength].
  change (path _ hash) with (path (store k) hash).
  unfold Stat. destruct (stat f) as [e|].
  { destruct (IsNotExist e); cbn; repeat split; auto; lia. }
  rewrite Hc.
  pose proof (Remove_other (remove f) (files k) (path (store k) hash)) as Hother.
  pose proof (Remove_at (remove f) (files k) (path (store k) hash)) as Hat.
  destruct (Remove (remove f) (files k) (path (store k) hash)) as [fs' oe].
  cbn [fst snd] in Hother, Hat.
  assert (files k !! path (store k) hash = fs' !! path (store k) hash \/
          fs' !! path (store k) hash = None /\ sha384_hex c <> hash) as Hp.
  { destruct Hat as [->|(_ & _ & [= -> _])]; [by left | right].
    split; [apply lookup_delete_eq | congruence]. }
  destruct oe as [e|]; cbn; (repeat split; [lia | by intros; apply Hother; auto |]);
    (destruct Hp as [<-|[Hp Hd]]; [by left | right; split; [done|eauto]]).
Qed.

(** A blob that has been damaged on the disk is removed when it is read:
    with a store that is initialized or can be, fewer than thirty checks
    counted as running and no system call failing, [Get] of a hash whose file does not have
    that hash as its SHA-384 returns no blob and an error that names the
    hash found, logs it, and removes the file; after that [Has] answers
    false and [Get] reports [ErrBlobNotFound]. *)
Theorem broken_blob_removed f k hash c :
  ready f k ->
  read f = None -> stat f = None -> remove f = None ->
  files k !! path (store k) hash = Some c ->
  sha384_hex c <> hash ->
  concurrentChecks (store k) < maxConcurrentChecks ->
  let k' := (Get f k hash).1 in
  let out := (Get f k hash).2 in
  blob out = None /\
  err out = Some (Err (Message (broken_blob hash (sha384_hex c)))) /\
  errors_logged k' = errors_logged k ++ [broken_blob hash (sha384_hex c)] /\
  files k' = base.delete (path (store k) hash) (files k) /\
  (forall f', stat f' = None -> (Has f' k' hash).2 = (false, None)) /\
  (forall f', read f' = None ->
     blob (Get f' k' hash).2 = None /\
     err (Get f' k' hash).2 = Some (Err ErrBlobNotFound)).
Proof.
  intros Hr Hread Hstat Hrem Hc Hd Hlt. cbn zeta.
  assert (Get f k hash =
          (set_files (base.delete (path (store k) hash) (files k))
             (Errorf (broken_blob hash (sha384_hex c)) (init k)),
           {| blob := None; trace := NewBlobTrace (took f) nameDisk;
              err := Some (Err (Message (broken_blob hash (sha384_hex c)))) |})) as ->.
  { rewrite (Get_ready _ _ _ Hr).
    unfold Get. rewrite initOnce_again by done.
    change (path (store (init k)) hash) with (path (store k) hash).
    change (files (init k)) with (files k).
    change (concurrentChecks (store (init k))) with (concurrentChecks (store k)).
    unfold ReadFile. rewrite Hread, Hc.
    apply Z.ltb_lt in Hlt. rewrite Hlt.
    assert (String.eqb hash (sha384_hex c) = false) as ->
      by (apply String.eqb_neq; congruence).
    cbn [negb]. rewrite Delete_initialized by done.
    cbn [store files set_store Errorf checks_Add set_initialized blobDir prefixLength].
    change (path _ hash) with (path (store k) hash).
    unfold Stat, Remove. rewrite Hstat, Hrem, Hc. cbn.
    unfold set_files, set_store, checks_Add, Errorf, set_initialized. cbn.
    do 3 f_equal. lia. }
  cbn [fst snd blob err].
  split; [done|]. split; [done|]. split; [done|]. split; [done|]. split.
  - intros f' Hs. rewrite Has_initialized by done. cbn.
    unfold Stat. rewrite Hs.
    change (path _ hash) with (path (store k) hash).
    by rewrite lookup_delete_eq.
  - intros f' Hr'. unfold Get. rewrite initOnce_again by done.
    unfold ReadFile. rewrite Hr'. cbn [files set_files].
    change (path _ hash) with (path (store k) hash).
    by rewrite lookup_delete_eq.
Qed.



End DiskStoreProofs.

(** ** Concrete runs, with the JSON of Go *)

Module Runs.

Import GoJSON Scenario.

Lemma w0_well_formed : well_formed w0.
Proof.
  assert (Hh : handlers (node w0) = ∅) by reflexivity.
  assert (Hp : pushHandlers (node w0) = ∅) by reflexivity.
  split; rewrite ?Hh, ?Hp.
  - by vm_compute.
  - intros i c Hc. by rewrite lookup_empty in Hc.
  - intros i j c Hc. by rewrite lookup_empty in Hc.
  - intros m subs c Hm. by rewrite lookup_empty in Hm.
Qed.

Lemma marshal_total (msg : request_msg) : exists b, marshal msg = inl b.
Proof. by eexists. Qed.

(** The first request of a Node and its answer: the frame goes out, the
    answer comes back, the call returns nil with the result decoded and the
    map is empty again. *)
Example request_round_trip :
  let r := request None (fun w => (handle reply_frame w).1) SelResponse
             "server.version" (Some ["reflector.go"; "1.0"]) no_reply w0 in
  pc r.2 = Returned None /\
  out r.2 = {| Result := Some (JArray [JString "lbryum"; JString "1.0"]) |} /\
  handlers (node r.1) !! 0 = None /\
  nextID (node r.1) = 1.
Proof. by vm_compute. Qed.

Lemma first_request_frame_witness :
  wire w1 =
    [(dq "{'id':0,'method':'server.version','params':['reflector.go','1.0']}"
      ++ String "010" "")%string].
Proof.
  pose proof (first_request_frame keep_order dial ["c.example"] w0
                "server.version" (Some ["reflector.go"; "1.0"]) no_reply
                (dq "{'id':0,'method':'server.version','params':['reflector.go','1.0']}")
                go eq_refl eq_refl eq_refl) as [_ Hw].
  exact Hw.
Defined.

Lemma request_removes_entry_witness :
  handlers (node (resolve SelResponse w2 t1).1) = delete 0 (handlers (node w2)) /\
  handlers (node (resolve (SelTimeout (1 * Second)) w1 t1).1)
    = delete 0 (handlers (node w1)).
Proof.
  destruct (request_removes_entry w0 "server.version" (Some ["reflector.go"; "1.0"])
              no_reply _ eq_refl) as [_ H].
  split.
  - destruct (H w2) as (Hr & _ & _).
    assert (exists r h, recv (chans w2) (new_ref (chans w0)) = Some (r, h))
      as (r & h & E) by (vm_compute; eauto).
    apply (Hr r h E).
  - destruct (H w1) as (_ & Ht & _). apply Ht. by vm_compute.
Defined.

(** C1 as stated fails: a call released by the shutdown signal returns nil
    with its entry still in the map, and so does a call whose Send
    failed. *)
Lemma request_leaves_entry_behind :
  (let r := resolve SelStop (set_node (Shutdown (node w1)) w1) t1 in
   pc r.2 = Returned None /\ handlers (node r.1) !! 0 = Some 0%nat) /\
  (let r := issue (Some (OpError "broken pipe")) w0 version in
   pc r.2 = Returned (Some (OpError "broken pipe")) /\
   handlers (node r.1) !! 0 = Some 0%nat).
Proof. by vm_compute. Qed.

Lemma request_select_outcome_witness :
  pc (resolve SelStop (set_node (Shutdown (node w1)) w1) t1).2 = Returned None /\
  pc (resolve SelResponse w2 t1).2 = Returned None /\
  pc (resolve (SelTimeout (1 * Second)) w1 t1).2 = Returned (Some ErrTimeout) /\
  resolve (SelTimeout (Second / 2)) w1 t1 = (w1, t1).
Proof.
  destruct (request_select_outcome w0 "server.version" (Some ["reflector.go"; "1.0"])
              no_reply _ eq_refl) as (_ & _ & H).
  split; [|split; [|split]].
  - destruct (H (set_node (Shutdown (node w1)) w1)) as (Hs & _). by apply Hs.
  - destruct (H w2) as (_ & Hr & _).
    assert (exists h, recv (chans w2) (new_ref (chans w0))
                      = Some ({| data := reply_frame; err := None |}, h))
      as (h & E) by (vm_compute; eauto).
    exact (proj1 (Hr _ h E)).
  - destruct (H w1) as (_ & _ & Ht & _). apply Ht. by vm_compute.
  - destruct (H w1) as (_ & _ & _ & Hw). apply (Hw (SelTimeout (Second / 2))).
    by vm_compute.
Defined.

(** C3 as stated fails: a call whose Send fails returns the error of the
    transport although the group is not stopped, no response has arrived
    and no time has passed. *)
Lemma request_send_failure_returns :
  let r := issue (Some (OpError "broken pipe")) w0 version in
  pc r.2 = Returned (Some (OpError "broken pipe")) /\
  closed (grp (node r.1)) = false /\
  recv (chans r.1) 0%nat = None /\
  OpError "broken pipe" <> ErrTimeout.
Proof. by vm_compute. Qed.

Lemma request_send_failure_keeps_entry_witness :
  let r := issue (Some (OpError "broken pipe")) w0 version in
  pc r.2 = Returned (Some (OpError "broken pipe")) /\
  handlers (node r.1) !! 0 = Some 0%nat /\
  closed (grp (node r.1)) = false.
Proof.
  destruct (request_send_failure_keeps_entry w0 "server.version"
              (Some ["reflector.go"; "1.0"]) no_reply _ (OpError "broken pipe") eq_refl)
    as (H1 & H2 & H3).
  split; [exact H1|]. split; [exact H2|].
  exact (f_equal closed H3).
Defined.

Lemma undecodable_frame_routed_witness :
  handle garbage_frame w0 = (Node_err SyntaxError w0, Receiving).
Proof.
  destruct (undecodable_frame_routed garbage_frame w0 envelope_zero SyntaxError
              envelope2_zero SyntaxError eq_refl eq_refl) as (_ & _ & _ & H).
  apply H; reflexivity.
Defined.

(** C2 as stated fails.  Bytes that are no JSON leave the envelope at its
    zero value, id 0, and the error response made of them is sent to the
    request pending under id 0, which returns the decode error.  A frame
    whose id has the wrong type fails both decodes with its method
    decoded, and the error response is offered to the subscribers of that
    method. *)
Lemma undecodable_frame_delivered :
  (let r := handle garbage_frame w1 in
   (unmarshal garbage_frame envelope_zero).2 = Some SyntaxError /\
   (unmarshal garbage_frame envelope2_zero).2 = Some SyntaxError /\
   chans r.1 !! 0%nat =
     Some {| cap := 1; buf := [{| data := ""; err := Some SyntaxError |}] |} /\
   pc (resolve SelResponse r.1 t1).2 = Returned (Some SyntaxError)) /\
  (let r := handle bad_id_frame w_push in
   (unmarshal bad_id_frame envelope_zero).2 = Some UnmarshalTypeError /\
   (unmarshal bad_id_frame envelope2_zero).2 = Some UnmarshalTypeError /\
   chans r.1 !! 5%nat =
     Some {| cap := 1; buf := [{| data := ""; err := Some UnmarshalTypeError |}] |}).
Proof. by vm_compute. Qed.



(** Every value of the counter is reached: after [k] calls made in turn
    from a new Node it stands at [k mod 2^32]. *)
Lemma counter_after (cs : list (string * option (list string) * reply)) :
  Z.of_nat (length cs) <= uint32_modulus ->
  nextID (node (issue_all cs w0).1) = Z.of_nat (length cs) mod uint32_modulus.
Proof.
  intros Hlen.
  by destruct (issue_all_spec cs w0 marshal_total w0_well_formed Hlen) as (_ & -> & _).
Qed.

(** Two calls that run at the same time can load the counter before either
    has incremented it.  Both then work with id 0; the second registration
    replaces the first; the one response with id 0 that arrives, the answer
    to the first call's frame, is handed to the second call, and the first
    call times out. *)
Lemma interleaved_calls_share_an_id :
  (let s := run race s0 in
   id_of <$> calls s = [Some 0; Some 0] /\ nextID (node (world s)) = 2) /\
  (let s := run (race ++ race_goes_on) s0 in
   pc <$> calls s = [Returned (Some ErrTimeout); Returned None] /\
   out <$> calls s = [no_reply; {| Result := Some (JString "one") |}]).
Proof. by vm_compute. Qed.

Lemma shape_B_normalized_witness :
  handle shape_B_frame w1 = handle shape_A_frame w1 /\
  pc (resolve SelResponse (handle shape_B_frame w1).1 t1).2 =
    Returned (Some (Errorf (-5) "No such mempool transaction")).
Proof.
  destruct (shape_B_normalized (V := reply) shape_B_frame shape_A_frame
           {| ID := 0; Method := ""; Error := {| Code := 1; Message := "" |} |}
           UnmarshalTypeError
           {| ID2 := 0; Method2 := "";
              Error2 := {| Code2 := 1;
                           Message2 := {| Code := -5;
                                          Message := "No such mempool transaction" |} |} |}
           eq_refl eq_refl eq_refl ltac:(discriminate) w1) as [Hh Hr].
  split; [exact Hh|]. rewrite (Hr t1 SelResponse). by vm_compute.
Defined.

Lemma frame_classification_witness :
  classify shape_A_frame
    {| ID := 0; Method := "";
       Error := {| Code := -5; Message := "No such mempool transaction" |} |} None =
    {| data := ""; err := Some (Errorf (-5) "No such mempool transaction") |}.
Proof.
  destruct (frame_classification shape_A_frame
              {| ID := 0; Method := "";
                 Error := {| Code := -5; Message := "No such mempool transaction" |} |}
              ltac:(by vm_compute)) as [H _].
  exact H.
Defined.

(** C7 as stated fails: a decoded frame whose error has a code and an empty
    message is turned into a success response carrying the frame, and the
    request it is delivered to returns nil. *)
Lemma error_code_without_message_is_success :
  decode code_only_frame =
    ({| ID := 0; Method := ""; Error := {| Code := 5; Message := "" |} |}, None) /\
  classify code_only_frame (decode code_only_frame).1 None =
    {| data := code_only_frame; err := None |} /\
  pc (resolve SelResponse (handle code_only_frame w1).1 t1).2 = Returned None.
Proof. by vm_compute. Qed.

Lemma push_broadcast_witness :
  let pushed := {| data := push_frame; err := None |} in
  let h := broadcast pushed [5; 6; 7]%nat (chans w_push) in
  handle push_frame w_push = (set_chans h w_push, Receiving) /\
  h !! 5%nat = Some {| cap := 1; buf := [pushed] |} /\
  h !! 6%nat = Some {| cap := 1; buf := [stale] |} /\
  h !! 7%nat = Some {| cap := 2; buf := [pushed] |} /\
  h !! 8%nat = Some (make_chan 1).
Proof.
  intros pushed h.
  destruct (push_broadcast push_frame w_push
              {| ID := 7; Method := "blockchain.headers.subscribe";
                 Error := rpc_error_zero |}
              ltac:(by vm_compute) ltac:(discriminate))
    as (Hh & _ & Hone & Hfull & Hother & _).
  assert (Hnd : NoDup [5; 6; 7]%nat).
  { apply (bool_decide_unpack _). by vm_compute. }
  split; [|split; [|split; [|split]]].
  - rewrite Hh. reflexivity.
  - apply (Hone 5%nat (make_chan 1) Hnd); [|reflexivity].
    apply (bool_decide_unpack _). by vm_compute.
  - apply (Hfull 6%nat {| cap := 1; buf := [stale] |}); reflexivity.
  - apply (Hone 7%nat (make_chan 2) Hnd); [|reflexivity].
    apply (bool_decide_unpack _). by vm_compute.
  - refine (Hother 8%nat _).
    apply (bool_decide_unpack _). by vm_compute.
Defined.
Lemma Connect_succeeds_once_witness :
  let r' := Connect pick_first dial node0 ["a.example"; "b.example"] in
  c_err r' = Some ErrNodeConnected /\ c_node r' = node0 /\
  c_addrs r' = ["a.example"; "b.example"] /\ c_dialled r' = [].
Proof.
  destruct (Connect_succeeds_once keep_order dial NewNode ["c.example"]
              pick_first dial ["a.example"; "b.example"] eq_refl) as [_ H].
  exact H.
Defined.

Lemma late_response_dropped_witness :
  let w := (resolve (SelTimeout (1 * Second)) w1 t1).1 in
  pc (resolve (SelTimeout (1 * Second)) w1 t1).2 = Returned (Some ErrTimeout) /\
  handlers (node w) !! 0 = None /\
  handle reply_frame w = (w, Receiving).
Proof.
  apply (late_response_dropped w1 t1
           {| req_ID := 0; req_Method := "server.version";
              req_Params := Some ["reflector.go"; "1.0"] |} 0%nat (1 * Second)
           reply_frame envelope_zero None); by vm_compute.
Defined.

Lemma response_racing_timeout_witness :
  let fired := request_step {| send_err := None; sel := SelTimeout (1 * Second) |} w1 t1 in
  let arrived := handle reply_frame fired.1 in
  let returned := request_step go arrived.1 fired.2 in
  arrived.2 = Receiving /\
  pc returned.2 = Returned (Some ErrTimeout) /\
  handlers (node returned.1) !! 0 = None /\
  chans returned.1 !! 0%nat =
    Some {| cap := 1; buf := [{| data := reply_frame; err := None |}] |}.
Proof.
  destruct (response_racing_timeout w1 t1
              {| req_ID := 0; req_Method := "server.version";
                 req_Params := Some ["reflector.go"; "1.0"] |} 0%nat (1 * Second)
              reply_frame envelope_zero None go
              eq_refl ltac:(by vm_compute) ltac:(by vm_compute) ltac:(by vm_compute)
              ltac:(by vm_compute) eq_refl ltac:(apply not_elem_of_nil))
    as (H1 & _ & H3 & H4 & H5).
  split; [exact H1|]. split; [exact H3|]. split; [exact H4|exact H5].
Defined.

Lemma second_response_blocks_loop_witness :
  let s := run [Frame reply_frame; Frame garbage_frame; Stop; Poll] answered in
  recv_loop s = Delivering 0 {| data := reply_frame; err := None |} /\
  chans (world s) !! 0%nat =
    Some {| cap := 1; buf := [{| data := reply_frame; err := None |}] |} /\
  closed (grp (node (world s))) = true.
Proof.
  destruct (second_response_blocks_loop answered reply_frame envelope_zero None 0%nat
              {| cap := 1; buf := [{| data := reply_frame; err := None |}] |}
              [Frame garbage_frame; Stop; Poll]
              eq_refl eq_refl ltac:(by vm_compute) ltac:(by vm_compute)
              ltac:(apply not_elem_of_nil) ltac:(by vm_compute) eq_refl
              ltac:(repeat constructor)) as (H1 & H2 & _).
  split; [exact H1|]. split; [exact H2|]. by vm_compute.
Defined.

Lemma blocked_loop_released_witness :
  let s := run [Step 0 {| send_err := None; sel := SelResponse |}; Poll] held in
  recv_loop s = Receiving /\
  chans (world s) !! 0%nat =
    Some {| cap := 1; buf := [{| data := reply_frame; err := None |}] |}.
Proof.
  destruct (blocked_loop_released held 0%nat t1
              {| req_ID := 0; req_Method := "server.version";
                 req_Params := Some ["reflector.go"; "1.0"] |} 0%nat
              {| data := reply_frame; err := None |}
              eq_refl eq_refl eq_refl) as [H1 _].
  - vm_compute. eauto.
  - intros ch Hch. vm_compute in Hch. injection Hch as <-. cbn. lia.
  - split; [exact H1|]. by vm_compute.
Defined.

Lemma counter_counts_increments_witness :
  nextID (node (world (run race s0))) = 2 /\
  increments (calls (run race s0)) = 2%nat.
Proof.
  destruct (counter_counts_increments race s0 ltac:(by vm_compute)) as [_ H].
  split; [rewrite H|]; by vm_compute.
Defined.


End Runs.

(** ** Concrete runs of the stores *)

Module StoreRuns.
Import Blobs StoreScenario.

Lemma Gets_return_bodies_witness :
  let g' := (HTTP.Gets reflector three_gets at_start).1 in
  let outs := (HTTP.Gets reflector three_gets at_start).2 in
  HTTP.pool_clean g' /\
  HTTP.blob <$> outs = [Some "first blob"; None; Some "second"] /\
  HTTP.MtrInBytesHTTP g' = [10; 6].
Proof.
  destruct (Gets_return_bodies reflector three_gets at_start ltac:(constructor))
    as (Hclean & _ & Hmetric).
  split; [exact Hclean|]. split; [by vm_compute | exact Hmetric].
Defined.

Lemma broken_blob_removed_witness :
  let k' := (Disk.Get Disk.no_faults disk0 "sha:lost").1 in
  Disk.blob (Disk.Get Disk.no_faults disk0 "sha:lost").2 = None /\
  Disk.err (Disk.Get Disk.no_faults disk0 "sha:lost").2 =
    Some (Message
      "[sha:lost] found a broken blob while reading from disk. Actual hash: sha:damaged") /\
  Disk.files k' !! "/blobs/sh/sha:lost" = None /\
  (Disk.Has Disk.no_faults k' "sha:lost").2 = (false, None).
Proof.
  destruct (broken_blob_removed Disk.no_faults disk0 "sha:lost" "damaged")
    as (Hb & He & _ & Hf & Hhas & _).
  - right. by split.
  - done.
  - done.
  - done.
  - by vm_compute.
  - by vm_compute.
  - by vm_compute.
  - split; [exact Hb|]. split; [exact He|]. split.
    + rewrite Hf. apply lookup_delete_eq.
    + by apply Hhas.
Defined.



End StoreRuns.
